(** * Logger: a shallow embedding of [logger.h] / [logger.cpp]

    The development follows the layout of the sources: the string and
    stream primitives the loggers rely on, the file system seen through
    [std::ofstream], the configurable [Logger] class, and the static
    [SLogger] class.  Theorems come after all the definitions. *)

From Stdlib Require Import Ascii.
From stdpp Require Import gmap strings list.

(** ** Log types: [enum LOG_TYPE {INFO = 0, WARNING = 1, ERROR = 2, FATAL = 3}] *)

Inductive LOG_TYPE := INFO | WARNING | ERROR | FATAL.

Definition LOG_TYPE_value (t : LOG_TYPE) : nat :=
  match t with INFO => 0 | WARNING => 1 | ERROR => 2 | FATAL => 3 end.

Definition LOG_TYPE_of_value (n : nat) : option LOG_TYPE :=
  match n with
  | 0 => Some INFO
  | 1 => Some WARNING
  | 2 => Some ERROR
  | 3 => Some FATAL
  | _ => None
  end.

#[global] Instance LOG_TYPE_eq_dec : EqDecision LOG_TYPE.
Proof. solve_decision. Defined.

#[global] Instance LOG_TYPE_countable : Countable LOG_TYPE.
Proof.
  apply (inj_countable LOG_TYPE_value LOG_TYPE_of_value); by intros [].
Defined.

(** ** Strings and streams *)

(** A [std::string] may hold any character, the NUL character included. *)
Definition NUL : ascii := Ascii.zero.

(** The line feed, ["\n"] in the sources. *)
Definition LF : string := String "010"%char "".

(** [s.c_str()] handed to an [operator<<(const char* )]: the receiver reads
    the characters up to, and excluding, the first NUL. *)
Fixpoint c_str (s : string) : string :=
  match s with
  | EmptyString => EmptyString
  | String c rest => if decide (c = NUL) then EmptyString else String c (c_str rest)
  end.

Fixpoint nul_free (s : string) : bool :=
  match s with
  | EmptyString => true
  | String c rest => if decide (c = NUL) then false else nul_free rest
  end.

(** A [std::ostream] in good state, seen as the characters written to it so
    far.  [os << str] for a [std::string] writes all [str.size()] characters. *)
Definition ostream : Type := string.

Definition ostream_put (os : ostream) (s : string) : ostream := os +:+ s.

Notation "os << s" := (ostream_put os s) (at level 50, left associativity).

(** The [StreamT] template parameter: any type with an [operator<<] taking a
    [const char*].  The argument of [put_cstr] is the C string read by the
    operator. *)
Class CharStream (StreamT : Type) := put_cstr : StreamT → string → StreamT.

Notation "st <<< cs" := (put_cstr st cs) (at level 50, left associativity).

(** An in-memory accumulator as a user stream: it appends what it is given. *)
Definition Accumulator : Type := string.

#[global] Instance Accumulator_stream : CharStream Accumulator :=
  fun acc cs => acc +:+ cs.

(** ** Files, as seen through [std::ofstream] *)

(** [std::ios_base::out] (truncate) and [std::ios_base::app] (append). *)
Inductive openmode := ios_out | ios_app.

(** A path names a regular file with its content, or something that cannot be
    opened for writing (a directory, a file without write permission, a path
    through a missing directory).  A path without entry can be created. *)
Inductive node := File (content : string) | NoAccess.

Abbreviation FS := (gmap string node).

Record ofstream := { of_name : string; of_data : string }.

(** [std::ofstream ofs(file_name, mode)]; [None] stands for [!ofs]. *)
Definition ofstream_ctor (fs : FS) (file_name : string) (mode : openmode)
  : option ofstream :=
  match fs !! file_name with
  | Some NoAccess => None
  | Some (File old) =>
      Some {| of_name := file_name;
              of_data := match mode with ios_out => "" | ios_app => old end |}
  | None => Some {| of_name := file_name; of_data := "" |}
  end.

Definition ofstream_put (ofs : ofstream) (s : string) : ofstream :=
  {| of_name := of_name ofs; of_data := of_data ofs +:+ s |}.

Notation "ofs <<f s" := (ofstream_put ofs s) (at level 50, left associativity).

(** [ofs.close()]: the file holds what the stream was given. *)
Definition ofstream_close (fs : FS) (ofs : ofstream) : FS :=
  <[of_name ofs := File (of_data ofs)]> fs.

(** ** [std::unordered_map] access *)

(** [m.at(k)] throws [std::out_of_range] when [k] has no entry: [None]. *)
Definition map_at `{Countable K} {V} (m : gmap K V) (k : K) : option V := m !! k.

(** [m[k]] inserts a value-initialised entry when [k] has none, and gives the
    entry's value together with the map as it is afterwards. *)
Definition map_index `{Countable K} {V} (dflt : V) (m : gmap K V) (k : K)
  : gmap K V * V :=
  match m !! k with
  | Some v => (m, v)
  | None => (<[k := dflt]> m, dflt)
  end.

(** ** The configurable logger: [class Logger] *)

Record Logger := {
  flags_logs_enabled_ : gmap LOG_TYPE bool;
  logs_headers_ : gmap LOG_TYPE string;
  separator_ : string;
  newline_ : string;
  buffer_ : list string;
  (** what [buffer_.reserve] asked for: a lower bound on [buffer_.capacity()] *)
  buffer_reserved_ : nat
}.

Definition with_flags (s : Logger) (m : gmap LOG_TYPE bool) : Logger :=
  {| flags_logs_enabled_ := m; logs_headers_ := logs_headers_ s;
     separator_ := separator_ s; newline_ := newline_ s;
     buffer_ := buffer_ s; buffer_reserved_ := buffer_reserved_ s |}.

Definition with_headers (s : Logger) (m : gmap LOG_TYPE string) : Logger :=
  {| flags_logs_enabled_ := flags_logs_enabled_ s; logs_headers_ := m;
     separator_ := separator_ s; newline_ := newline_ s;
     buffer_ := buffer_ s; buffer_reserved_ := buffer_reserved_ s |}.

Definition with_separator (s : Logger) (sep : string) : Logger :=
  {| flags_logs_enabled_ := flags_logs_enabled_ s; logs_headers_ := logs_headers_ s;
     separator_ := sep; newline_ := newline_ s;
     buffer_ := buffer_ s; buffer_reserved_ := buffer_reserved_ s |}.

Definition with_newline (s : Logger) (nl : string) : Logger :=
  {| flags_logs_enabled_ := flags_logs_enabled_ s; logs_headers_ := logs_headers_ s;
     separator_ := separator_ s; newline_ := nl;
     buffer_ := buffer_ s; buffer_reserved_ := buffer_reserved_ s |}.

Definition with_buffer (s : Logger) (b : list string) : Logger :=
  {| flags_logs_enabled_ := flags_logs_enabled_ s; logs_headers_ := logs_headers_ s;
     separator_ := separator_ s; newline_ := newline_ s;
     buffer_ := b; buffer_reserved_ := buffer_reserved_ s |}.

Definition with_reserved (s : Logger) (n : nat) : Logger :=
  {| flags_logs_enabled_ := flags_logs_enabled_ s; logs_headers_ := logs_headers_ s;
     separator_ := separator_ s; newline_ := newline_ s;
     buffer_ := buffer_ s; buffer_reserved_ := n |}.

Module Logger.

(** *** Constructors *)

(** [Logger::Logger()] *)
Definition ctor : Logger :=
  {| flags_logs_enabled_ :=
       <[INFO := true]> (<[WARNING := true]> (<[ERROR := true]> (<[FATAL := true]> ∅)));
     logs_headers_ :=
       <[INFO := "[INFO]"]> (<[WARNING := "[WARNING]"]>
         (<[ERROR := "[ERROR]"]> (<[FATAL := "[FATAL]"]> ∅)));
     separator_ := " - ";
     newline_ := LF;
     buffer_ := [];
     buffer_reserved_ := 0 |}.

(** [Logger::Logger(std::size_t buffer_min_capacity)]: delegates to the
    default constructor, then [buffer_.reserve(buffer_min_capacity)]. *)
Definition ctor_capacity (buffer_min_capacity : nat) : Logger :=
  with_reserved ctor (buffer_reserved_ ctor `max` buffer_min_capacity).

(** *** Flags *)

(** [flags_logs_enabled_[log_type] = enabled] *)
Definition setEnabled (s : Logger) (log_type : LOG_TYPE) (enabled : bool) : Logger :=
  let '(m, _) := map_index false (flags_logs_enabled_ s) log_type in
  with_flags s (<[log_type := enabled]> m).

(** the loop over the entries the map has, setting each [it->second] *)
Definition setEnabledAll (s : Logger) (enabled : bool) : Logger :=
  with_flags s ((fun _ => enabled) <$> flags_logs_enabled_ s).

Definition isEnabled (s : Logger) (log_type : LOG_TYPE) : option bool :=
  map_at (flags_logs_enabled_ s) log_type.

(** *** Format *)

Definition setHeader (s : Logger) (log_type : LOG_TYPE) (header : string) : Logger :=
  let '(m, _) := map_index "" (logs_headers_ s) log_type in
  with_headers s (<[log_type := header]> m).

Definition header (s : Logger) (log_type : LOG_TYPE) : option string :=
  map_at (logs_headers_ s) log_type.

Definition setSeparator (s : Logger) (sep : string) : Logger := with_separator s sep.
Definition separator (s : Logger) : string := separator_ s.
Definition setNewline (s : Logger) (nl : string) : Logger := with_newline s nl.
Definition newline (s : Logger) : string := newline_ s.

(** *** Log and dump *)

(** [void log(LOG_TYPE, const std::string&)]: the buffered log.  Both maps
    are read with [operator[]]. *)
Definition log (s : Logger) (log_type : LOG_TYPE) (message : string) : Logger :=
  let '(flags, enabled) := map_index false (flags_logs_enabled_ s) log_type in
  let s1 := with_flags s flags in
  if enabled then
    let '(headers, h) := map_index "" (logs_headers_ s1) log_type in
    let s2 := with_headers s1 headers in
    with_buffer s2 (buffer_ s2 ++ [(h +:+ separator_ s2) +:+ message])
  else s1.

(** [void log(LOG_TYPE, const std::string&, std::ostream&) const] *)
Definition log_os (s : Logger) (log_type : LOG_TYPE) (message : string)
    (os : ostream) : option ostream :=
  enabled ← map_at (flags_logs_enabled_ s) log_type;
  if enabled : bool then
    h ← map_at (logs_headers_ s) log_type;
    Some (os << h << separator_ s << message << newline_ s)
  else Some os.

(** [template <typename StreamT> void log(LOG_TYPE, const std::string&, StreamT&) const] *)
Definition log_stream {StreamT : Type} `{!CharStream StreamT} (s : Logger)
    (log_type : LOG_TYPE) (message : string) (stream : StreamT) : option StreamT :=
  enabled ← map_at (flags_logs_enabled_ s) log_type;
  if enabled : bool then
    h ← map_at (logs_headers_ s) log_type;
    Some (stream <<< c_str h <<< c_str (separator_ s)
                 <<< c_str message <<< c_str (newline_ s))
  else Some stream.

(** [bool log(LOG_TYPE, const std::string&, const std::string& file_name,
    std::ios_base::openmode) const]: the returned boolean and the file
    system afterwards. *)
Definition log_file (s : Logger) (log_type : LOG_TYPE) (message : string)
    (file_name : string) (mode : openmode) (fs : FS) : option (bool * FS) :=
  enabled ← map_at (flags_logs_enabled_ s) log_type;
  if enabled : bool then
    match ofstream_ctor fs file_name mode with
    | None => Some (false, fs)
    | Some ofs =>
        h ← map_at (logs_headers_ s) log_type;
        let ofs := ofs <<f h <<f separator_ s <<f message <<f newline_ s in
        Some (true, ofstream_close fs ofs)
    end
  else Some (true, fs).

(** [void dump(std::ostream&)] *)
Definition dump_os (s : Logger) (os : ostream) : Logger * ostream :=
  let os := foldl (fun os line => os << line << newline_ s) os (buffer_ s) in
  (with_buffer s [], os).

(** [template <typename StreamT> void dump(StreamT&)] *)
Definition dump_stream {StreamT : Type} `{!CharStream StreamT} (s : Logger)
    (stream : StreamT) : Logger * StreamT :=
  let stream :=
    foldl (fun st line => st <<< c_str line <<< c_str (newline_ s)) stream (buffer_ s) in
  (with_buffer s [], stream).

(** [bool dump(const std::string& file_name, std::ios_base::openmode)] *)
Definition dump_file (s : Logger) (file_name : string) (mode : openmode) (fs : FS)
  : bool * Logger * FS :=
  match ofstream_ctor fs file_name mode with
  | None => (false, s, fs)
  | Some ofs =>
      let ofs := foldl (fun ofs line => ofs <<f line <<f newline_ s) ofs (buffer_ s) in
      (true, with_buffer s [], ofstream_close fs ofs)
  end.

End Logger.

(** ** The static logger: [class SLogger] *)

(** The static data members, as one value for the process-wide state. *)
Record SLogger := {
  INFO_ENABLED_FLAG : bool;
  WARNING_ENABLED_FLAG : bool;
  ERROR_ENABLED_FLAG : bool;
  FATAL_ENABLED_FLAG : bool;
  NEWLINE : string
}.

Module SLogger.

(** the definitions of the static members in [logger.cpp] *)
Definition init : SLogger :=
  {| INFO_ENABLED_FLAG := true; WARNING_ENABLED_FLAG := true;
     ERROR_ENABLED_FLAG := true; FATAL_ENABLED_FLAG := true;
     NEWLINE := LF |}.

(** [static void log(LOG_TYPE, const std::string&, std::ostream&)] *)
Definition log_os (g : SLogger) (log_type : LOG_TYPE) (message : string)
    (os : ostream) : ostream :=
  match log_type with
  | INFO =>
      if INFO_ENABLED_FLAG g then os << "[INFO] - " << message << NEWLINE g else os
  | WARNING =>
      if WARNING_ENABLED_FLAG g then os << "[WARNING] - " << message << NEWLINE g else os
  | ERROR =>
      if ERROR_ENABLED_FLAG g then os << "[ERROR] - " << message << NEWLINE g else os
  | FATAL =>
      if FATAL_ENABLED_FLAG g then os << "[WARNING] - " << message << NEWLINE g else os
  end.

(** one [case] of the file overload: open, give up when [!ofs], write, close *)
Definition write_file (prefix message nl file_name : string) (mode : openmode)
    (fs : FS) : bool * FS :=
  match ofstream_ctor fs file_name mode with
  | None => (false, fs)
  | Some ofs => (true, ofstream_close fs (ofs <<f prefix <<f message <<f nl))
  end.

(** [static bool log(LOG_TYPE, const std::string&, const std::string& file_name,
    std::ios_base::openmode)] *)
Definition log_file (g : SLogger) (log_type : LOG_TYPE) (message : string)
    (file_name : string) (mode : openmode) (fs : FS) : bool * FS :=
  match log_type with
  | INFO =>
      if INFO_ENABLED_FLAG g
      then write_file "[INFO] - " message (NEWLINE g) file_name mode fs
      else (true, fs)
  | WARNING =>
      if WARNING_ENABLED_FLAG g
      then write_file "[WARNING] - " message (NEWLINE g) file_name mode fs
      else (true, fs)
  | ERROR =>
      if ERROR_ENABLED_FLAG g
      then write_file "[ERROR] - " message (NEWLINE g) file_name mode fs
      else (true, fs)
  | FATAL =>
      if FATAL_ENABLED_FLAG g
      then write_file "[FATAL] - " message (NEWLINE g) file_name mode fs
      else (true, fs)
  end.

(** [template <typename StreamT> static void log(LOG_TYPE, const std::string&, StreamT&)];
    the prefixes are string literals, message and newline go through [c_str()] *)
Definition log_stream {StreamT : Type} `{!CharStream StreamT} (g : SLogger)
    (log_type : LOG_TYPE) (message : string) (stream : StreamT) : StreamT :=
  match log_type with
  | INFO =>
      if INFO_ENABLED_FLAG g
      then stream <<< "[INFO] - " <<< c_str message <<< c_str (NEWLINE g)
      else stream
  | WARNING =>
      if WARNING_ENABLED_FLAG g
      then stream <<< "[WARNING] - " <<< c_str message <<< c_str (NEWLINE g)
      else stream
  | ERROR =>
      if ERROR_ENABLED_FLAG g
      then stream <<< "[ERROR] - " <<< c_str message <<< c_str (NEWLINE g)
      else stream
  | FATAL =>
      if FATAL_ENABLED_FLAG g
      then stream <<< "[WARNING] - " <<< c_str message <<< c_str (NEWLINE g)
      else stream
  end.

(** the flag [log] consults for a log type *)
Definition flag (g : SLogger) (log_type : LOG_TYPE) : bool :=
  match log_type with
  | INFO => INFO_ENABLED_FLAG g
  | WARNING => WARNING_ENABLED_FLAG g
  | ERROR => ERROR_ENABLED_FLAG g
  | FATAL => FATAL_ENABLED_FLAG g
  end.

End SLogger.

(** The header the documentation of both loggers gives a log type: ["[LOG_TYPE]"]. *)
Definition documented_header (log_type : LOG_TYPE) : string :=
  match log_type with
  | INFO => "[INFO]"
  | WARNING => "[WARNING]"
  | ERROR => "[ERROR]"
  | FATAL => "[FATAL]"
  end.

(** ** Sequences of calls on a [Logger] *)

(** The calls that configure a logger or buffer a message. *)
Inductive call :=
| CallSetEnabled (log_type : LOG_TYPE) (enabled : bool)
| CallSetEnabledAll (enabled : bool)
| CallSetHeader (log_type : LOG_TYPE) (header : string)
| CallSetSeparator (sep : string)
| CallSetNewline (nl : string)
| CallLog (log_type : LOG_TYPE) (message : string).

Definition do_call (s : Logger) (c : call) : Logger :=
  match c with
  | CallSetEnabled l b => Logger.setEnabled s l b
  | CallSetEnabledAll b => Logger.setEnabledAll s b
  | CallSetHeader l h => Logger.setHeader s l h
  | CallSetSeparator sep => Logger.setSeparator s sep
  | CallSetNewline nl => Logger.setNewline s nl
  | CallLog l m => Logger.log s l m
  end.

Definition run (s : Logger) (cs : list call) : Logger := foldl do_call s cs.

(** The logger states a program can obtain: a constructor, then any of the
    non-[const] public member functions ([const] ones leave the object as
    it is). *)
Inductive reachable : Logger → Prop :=
| reach_ctor : reachable Logger.ctor
| reach_ctor_capacity n : reachable (Logger.ctor_capacity n)
| reach_call s c : reachable s → reachable (do_call s c)
| reach_dump_os s os : reachable s → reachable (Logger.dump_os s os).1
| reach_dump_stream {StreamT : Type} `{!CharStream StreamT} s (stream : StreamT) :
    reachable s → reachable (Logger.dump_stream s stream).1
| reach_dump_file s file_name mode fs :
    reachable s → reachable (Logger.dump_file s file_name mode fs).1.2.

(** Every log type has an entry in both maps. *)
Definition complete {V} (m : gmap LOG_TYPE V) : Prop := ∀ l, is_Some (m !! l).

Definition well_formed (s : Logger) : Prop :=
  complete (flags_logs_enabled_ s) ∧ complete (logs_headers_ s).

(** ** Reference descriptions used in the statements *)

(** Lines as a dump lays them out: each followed by the newline sequence. *)
Definition render (nl : string) (lines : list string) : string :=
  foldr (fun line rest => line +:+ nl +:+ rest) "" lines.

(** What a call contributes to the buffer: for a log call of an enabled type,
    the header and the separator in effect at that call, then the message,
    and no newline; nothing otherwise. *)
Definition entry_at_call (s : Logger) (c : call) : list string :=
  match c with
  | CallLog l m =>
      match Logger.isEnabled s l, Logger.header s l with
      | Some true, Some h => [h +:+ Logger.separator s +:+ m]
      | _, _ => []
      end
  | _ => []
  end.

Fixpoint entries (s : Logger) (cs : list call) : list string :=
  match cs with
  | [] => []
  | c :: cs' => entry_at_call s c ++ entries (do_call s c) cs'
  end.

(** The state the documentation promises after construction. *)
Definition default_settings (s : Logger) : Prop :=
  (∀ l, Logger.isEnabled s l = Some true) ∧
  Logger.header s INFO = Some "[INFO]" ∧
  Logger.header s WARNING = Some "[WARNING]" ∧
  Logger.header s ERROR = Some "[ERROR]" ∧
  Logger.header s FATAL = Some "[FATAL]" ∧
  Logger.separator s = " - " ∧
  Logger.newline s = LF ∧
  buffer_ s = [].

(** No buffered line holds a NUL character. *)
Definition nul_free_lines (lines : list string) : bool := forallb nul_free lines.

(** ** Further call patterns *)

(** Buffered [log] calls, one per message. *)
Definition log_calls (msgs : list (LOG_TYPE * string)) : list call :=
  (fun p => CallLog p.1 p.2) <$> msgs.

(** The same messages logged directly to a [std::ostream], one call after the
    other; a throwing call ends the sequence. *)
Fixpoint log_each_os (s : Logger) (msgs : list (LOG_TYPE * string)) (os : ostream)
  : option ostream :=
  match msgs with
  | [] => Some os
  | p :: rest => os' ← Logger.log_os s p.1 p.2 os; log_each_os s rest os'
  end.

(** The entries a fixed configuration gives a list of messages. *)
Definition lines_of (s : Logger) (msgs : list (LOG_TYPE * string)) : list string :=
  flat_map (fun p => entry_at_call s (CallLog p.1 p.2)) msgs.

Definition sets_newline (c : call) : bool :=
  match c with CallSetNewline _ => true | _ => false end.

(** Two loggers configured alike: they may differ in their buffers only. *)
Definition same_config (s s' : Logger) : Prop :=
  flags_logs_enabled_ s = flags_logs_enabled_ s' ∧
  logs_headers_ s = logs_headers_ s' ∧
  separator_ s = separator_ s' ∧
  newline_ s = newline_ s'.


(** * Properties *)

(** ** Strings *)

Section string_facts.

(** [String.append] does not unfold under [simpl]; its two equations *)
Lemma append_nil_l (b : string) : "" +:+ b = b.
Proof. reflexivity. Qed.

Lemma append_cons (x : ascii) (a b : string) : String x a +:+ b = String x (a +:+ b).
Proof. reflexivity. Qed.

Lemma append_assoc (a b c : string) : (a +:+ b) +:+ c = a +:+ b +:+ c.
Proof.
  induction a as [|x a IH]; [done |].
  by rewrite !append_cons, IH.
Qed.

Lemma append_nil_r (a : string) : a +:+ "" = a.
Proof. induction a as [|x a IH]; [done |]. by rewrite append_cons, IH. Qed.

Lemma c_str_nul_free (s : string) : nul_free s = true → c_str s = s.
Proof.
  induction s as [|x s IH]; simpl; [done |].
  case_decide; [done |]. intros Hs. by rewrite IH.
Qed.

Lemma c_str_is_nul_free (s : string) : nul_free (c_str s) = true.
Proof. induction s as [|x s IH]; simpl; [done |]. repeat (case_decide; simpl); done. Qed.

(** a C string ends at the first NUL of the [std::string] it comes from *)
Lemma c_str_cuts_at_nul (pre post : string) :
  nul_free pre = true → c_str (pre +:+ String NUL post) = pre.
Proof.
  induction pre as [|x pre IH].
  - intros _. reflexivity.
  - rewrite append_cons. simpl. case_decide; [done |]. intros Hpre. by rewrite IH.
Qed.

Lemma nul_free_append (a b : string) :
  nul_free (a +:+ b) = nul_free a && nul_free b.
Proof.
  induction a as [|x a IH]; [done |].
  rewrite append_cons. simpl. by case_decide.
Qed.

Lemma render_app (nl : string) (l1 l2 : list string) :
  render nl (l1 ++ l2) = render nl l1 +:+ render nl l2.
Proof.
  induction l1 as [|x l1 IH]; simpl; [done |].
  by rewrite IH, !append_assoc.
Qed.

(** the loop of [dump] over a [std::ostream] *)
Lemma dump_loop_os (nl : string) (lines : list string) (os : ostream) :
  foldl (fun os line => os << line << nl) os lines = os +:+ render nl lines.
Proof.
  revert os. induction lines as [|x lines IH]; intros os; simpl.
  - by rewrite append_nil_r.
  - rewrite IH. unfold ostream_put. by rewrite !append_assoc.
Qed.

(** the loop of [dump] over a [std::ofstream] *)
Lemma dump_loop_file (nl : string) (lines : list string) (ofs : ofstream) :
  foldl (fun ofs line => ofs <<f line <<f nl) ofs lines
  = {| of_name := of_name ofs; of_data := of_data ofs +:+ render nl lines |}.
Proof.
  revert ofs. induction lines as [|x lines IH]; intros [name data]; simpl.
  - by rewrite append_nil_r.
  - rewrite IH. unfold ofstream_put. simpl. by rewrite !append_assoc.
Qed.

(** the loop of the templated [dump], on an accumulator *)
Lemma dump_loop_accumulator (nl : string) (lines : list string) (acc : Accumulator) :
  foldl (fun st line => st <<< c_str line <<< c_str nl) acc lines
  = acc +:+ render (c_str nl) (c_str <$> lines).
Proof.
  revert acc. induction lines as [|x lines IH]; intros acc; simpl.
  - by rewrite append_nil_r.
  - rewrite IH. unfold put_cstr, Accumulator_stream. by rewrite !append_assoc.
Qed.

Lemma nul_free_lines_c_str (lines : list string) :
  nul_free_lines lines = true → c_str <$> lines = lines.
Proof.
  induction lines as [|x lines IH]; [done |].
  intros [Hx Hl]%andb_true_iff. rewrite fmap_cons. by rewrite c_str_nul_free, IH.
Qed.

Lemma ofstream_ctor_name fs file_name mode ofs :
  ofstream_ctor fs file_name mode = Some ofs → of_name ofs = file_name.
Proof.
  unfold ofstream_ctor. destruct (fs !! file_name) as [[old|]|]; intros; by simplify_eq.
Qed.

End string_facts.

(** ** Map access and the representation invariant *)

Section invariant.

Lemma map_index_present `{Countable K} {V} (d : V) (m : gmap K V) k v :
  m !! k = Some v → map_index d m k = (m, v).
Proof. unfold map_index. by intros ->. Qed.

Lemma with_flags_id s : with_flags s (flags_logs_enabled_ s) = s.
Proof. by destruct s. Qed.

Lemma with_headers_id s : with_headers s (logs_headers_ s) = s.
Proof. by destruct s. Qed.

Lemma complete_insert {V} (m : gmap LOG_TYPE V) l v :
  complete m → complete (<[l := v]> m).
Proof.
  intros Hm l'. destruct (decide (l = l')) as [->|Hne].
  - rewrite lookup_insert_eq. eauto.
  - rewrite lookup_insert_ne by done. apply Hm.
Qed.

Lemma complete_fmap {V W} (f : V → W) (m : gmap LOG_TYPE V) :
  complete m → complete (f <$> m).
Proof. intros Hm l. rewrite lookup_fmap. destruct (Hm l) as [v ->]. simpl. eauto. Qed.

Lemma complete_map_index {V} (d : V) (m : gmap LOG_TYPE V) l :
  complete m → complete (map_index d m l).1.
Proof.
  intros Hm. unfold map_index. destruct (m !! l); simpl; [done |].
  by apply complete_insert.
Qed.

Lemma well_formed_ctor : well_formed Logger.ctor.
Proof. split; intros []; vm_compute; eauto. Qed.

Lemma well_formed_ctor_capacity n : well_formed (Logger.ctor_capacity n).
Proof. split; intros []; vm_compute; eauto. Qed.

Lemma well_formed_setEnabled s l b : well_formed s → well_formed (Logger.setEnabled s l b).
Proof.
  intros [Hf Hh]. unfold Logger.setEnabled.
  pose proof (complete_map_index false _ l Hf) as Hc.
  destruct (map_index false (flags_logs_enabled_ s) l) as [m v]. simpl in *.
  split; simpl; [by apply complete_insert | done].
Qed.

Lemma well_formed_setEnabledAll s b : well_formed s → well_formed (Logger.setEnabledAll s b).
Proof. intros [Hf Hh]. split; simpl; [by apply complete_fmap | done]. Qed.

Lemma well_formed_setHeader s l h : well_formed s → well_formed (Logger.setHeader s l h).
Proof.
  intros [Hf Hh]. unfold Logger.setHeader.
  pose proof (complete_map_index "" _ l Hh) as Hc.
  destruct (map_index "" (logs_headers_ s) l) as [m v]. simpl in *.
  split; simpl; [done | by apply complete_insert].
Qed.

(** On a well-formed logger the buffered [log] reads both maps without
    adding an entry. *)
Lemma log_well_formed_eq s l m :
  well_formed s →
  Logger.log s l m =
    match flags_logs_enabled_ s !! l, logs_headers_ s !! l with
    | Some true, Some h => with_buffer s (buffer_ s ++ [(h +:+ separator_ s) +:+ m])
    | _, _ => s
    end.
Proof.
  intros [Hf Hh]. unfold Logger.log.
  destruct (Hf l) as [b Hb]. destruct (Hh l) as [h Hl].
  rewrite (map_index_present _ _ _ _ Hb), Hb, Hl, with_flags_id.
  destruct b; [| done].
  by rewrite (map_index_present _ _ _ _ Hl), with_headers_id.
Qed.

Lemma well_formed_log s l m : well_formed s → well_formed (Logger.log s l m).
Proof.
  intros Hwf. rewrite log_well_formed_eq by done.
  by destruct (flags_logs_enabled_ s !! l) as [[]|], (logs_headers_ s !! l).
Qed.

Lemma well_formed_do_call s c : well_formed s → well_formed (do_call s c).
Proof.
  destruct c; simpl;
    auto using well_formed_setEnabled, well_formed_setEnabledAll,
               well_formed_setHeader, well_formed_log.
Qed.

Lemma well_formed_dump_file s file_name mode fs :
  well_formed s → well_formed (Logger.dump_file s file_name mode fs).1.2.
Proof. unfold Logger.dump_file. by destruct (ofstream_ctor fs file_name mode). Qed.

Lemma reachable_well_formed s : reachable s → well_formed s.
Proof.
  induction 1;
    auto using well_formed_ctor, well_formed_ctor_capacity, well_formed_do_call,
               well_formed_dump_file.
Qed.

Lemma reachable_run s cs : reachable s → reachable (run s cs).
Proof.
  revert s. induction cs as [|c cs IH]; intros s Hs; simpl; [done |].
  apply IH. by constructor.
Qed.

End invariant.

(** ** Construction *)

(** C7: a logger built by either constructor, with or without the capacity
    hint, has the four log types enabled, the headers "[INFO]", "[WARNING]",
    "[ERROR]" and "[FATAL]", the separator " - ", the newline "\n", and an
    empty buffer. *)
Theorem constructed_logger_has_default_settings :
  default_settings Logger.ctor ∧ ∀ n, default_settings (Logger.ctor_capacity n).
Proof.
  split; [| intros n]; (split; [by intros [] |]); repeat split.
Qed.

(** C6: on a default-constructed logger, buffering [log(INFO, "x")] and then
    dumping to a stream writes exactly "[INFO] - x\n" after what the stream
    already holds, and the buffer is empty afterwards. *)
Theorem default_log_info_then_dump (os : ostream) :
  let r := Logger.dump_os (Logger.log Logger.ctor INFO "x") os in
  r.2 = os +:+ "[INFO] - x" +:+ LF ∧ buffer_ r.1 = [].
Proof.
  simpl. split; [| done].
  rewrite dump_loop_os. by f_equal.
Qed.

(** ** Enablement flags *)

Section flags.

Lemma isEnabled_setEnabledAll s b l :
  well_formed s → Logger.isEnabled (Logger.setEnabledAll s b) l = Some b.
Proof.
  intros [Hf _]. unfold Logger.isEnabled, map_at. simpl.
  rewrite lookup_fmap. by destruct (Hf l) as [v ->].
Qed.

Lemma flags_setEnabled s l b :
  flags_logs_enabled_ (Logger.setEnabled s l b) = <[l := b]> (flags_logs_enabled_ s).
Proof.
  unfold Logger.setEnabled, map_index.
  destruct (flags_logs_enabled_ s !! l); simpl; [done |].
  by rewrite insert_insert_eq.
Qed.

Lemma isEnabled_setEnabled_eq s l b :
  Logger.isEnabled (Logger.setEnabled s l b) l = Some b.
Proof.
  unfold Logger.isEnabled, map_at. by rewrite flags_setEnabled, lookup_insert_eq.
Qed.

Lemma isEnabled_setEnabled_ne s l l' b :
  l' ≠ l → Logger.isEnabled (Logger.setEnabled s l b) l' = Logger.isEnabled s l'.
Proof.
  intros Hne. unfold Logger.isEnabled, map_at.
  by rewrite flags_setEnabled, lookup_insert_ne.
Qed.

Lemma setEnabled_frame s l b :
  logs_headers_ (Logger.setEnabled s l b) = logs_headers_ s ∧
  separator_ (Logger.setEnabled s l b) = separator_ s ∧
  newline_ (Logger.setEnabled s l b) = newline_ s ∧
  buffer_ (Logger.setEnabled s l b) = buffer_ s ∧
  buffer_reserved_ (Logger.setEnabled s l b) = buffer_reserved_ s.
Proof.
  unfold Logger.setEnabled.
  by destruct (map_index false (flags_logs_enabled_ s) l).
Qed.

End flags.

(** C8: after [setEnabledAll(false)] every log type is disabled; enabling one
    log type afterwards enables that one, keeps the flags of the other three,
    and keeps the headers, the separator, the newline and the buffer. *)
Theorem disable_all_then_enable_one (s : Logger) (l : LOG_TYPE) :
  reachable s →
  let s1 := Logger.setEnabledAll s false in
  let s2 := Logger.setEnabled s1 l true in
  (∀ l', Logger.isEnabled s1 l' = Some false) ∧
  Logger.isEnabled s2 l = Some true ∧
  (∀ l', l' ≠ l → Logger.isEnabled s2 l' = Logger.isEnabled s1 l') ∧
  logs_headers_ s2 = logs_headers_ s1 ∧
  separator_ s2 = separator_ s1 ∧
  newline_ s2 = newline_ s1 ∧
  buffer_ s2 = buffer_ s1.
Proof.
  intros Hs%reachable_well_formed s1 s2. split; [| split; [| split]].
  - intros l'. by apply isEnabled_setEnabledAll.
  - apply isEnabled_setEnabled_eq.
  - intros l' Hne. by apply isEnabled_setEnabled_ne.
  - destruct (setEnabled_frame s1 l true) as (? & ? & ? & ? & ?). done.
Qed.

Lemma disable_all_then_enable_one_witness :
  reachable (Logger.log Logger.ctor WARNING "w") ∧
  let s1 := Logger.setEnabledAll (Logger.log Logger.ctor WARNING "w") false in
  let s2 := Logger.setEnabled s1 ERROR true in
  (∀ l', Logger.isEnabled s1 l' = Some false) ∧
  Logger.isEnabled s2 ERROR = Some true ∧
  (∀ l', l' ≠ ERROR → Logger.isEnabled s2 l' = Logger.isEnabled s1 l') ∧
  logs_headers_ s2 = logs_headers_ s1 ∧
  separator_ s2 = separator_ s1 ∧
  newline_ s2 = newline_ s1 ∧
  buffer_ s2 = buffer_ s1.
Proof.
  assert (Hr : reachable (Logger.log Logger.ctor WARNING "w")).
  { apply (reach_call Logger.ctor (CallLog WARNING "w")), reach_ctor. }
  split; [exact Hr |].
  apply (disable_all_then_enable_one (Logger.log Logger.ctor WARNING "w") ERROR Hr).
Defined.

(** ** Lookups never fail *)

(** C9: in every logger state reachable from a constructor through the public
    member functions, both maps have an entry for each of the four log types,
    so [isEnabled], [header], and the direct and file [log] overloads never
    throw the lookup error, whatever the log type. *)
Theorem reachable_lookups_never_throw (s : Logger) (l : LOG_TYPE) :
  reachable s →
  is_Some (flags_logs_enabled_ s !! l) ∧
  is_Some (logs_headers_ s !! l) ∧
  is_Some (Logger.isEnabled s l) ∧
  is_Some (Logger.header s l) ∧
  (∀ m os, is_Some (Logger.log_os s l m os)) ∧
  (∀ (StreamT : Type) `{!CharStream StreamT} m (stream : StreamT),
      is_Some (Logger.log_stream s l m stream)) ∧
  (∀ m file_name mode fs, is_Some (Logger.log_file s l m file_name mode fs)).
Proof.
  intros [Hf Hh]%reachable_well_formed.
  destruct (Hf l) as [b Hb], (Hh l) as [h Hl].
  unfold Logger.isEnabled, Logger.header, Logger.log_os, Logger.log_stream,
    Logger.log_file, map_at.
  rewrite Hb, Hl. simpl.
  repeat split; eauto; intros.
  - destruct b; eauto.
  - destruct b; eauto.
  - destruct b; [| eauto]. destruct (ofstream_ctor fs file_name mode); eauto.
Qed.

Lemma reachable_lookups_never_throw_witness :
  reachable (Logger.setHeader (Logger.ctor_capacity 8) FATAL "!!") ∧
  is_Some (Logger.header (Logger.setHeader (Logger.ctor_capacity 8) FATAL "!!") INFO) ∧
  is_Some (Logger.log_file (Logger.setHeader (Logger.ctor_capacity 8) FATAL "!!")
             FATAL "m" "out.log" ios_app ∅).
Proof.
  assert (Hr : reachable (Logger.setHeader (Logger.ctor_capacity 8) FATAL "!!")).
  { apply (reach_call _ (CallSetHeader FATAL "!!")), reach_ctor_capacity. }
  split; [exact Hr |]. split.
  - apply (reachable_lookups_never_throw _ INFO Hr).
  - apply (reachable_lookups_never_throw _ FATAL Hr).
Defined.


(** ** Disabled log types *)

(** C5: when a log type is disabled, logging a message of that type leaves
    the logger, and so the length of its buffer, as it is when buffered,
    writes nothing to a stream or a user stream, and leaves the file system
    untouched, returning [true], when logging to a file; none of the
    overloads throws. *)
Theorem disabled_log_is_silent (s : Logger) (l : LOG_TYPE) (m : string) :
  Logger.isEnabled s l = Some false →
  Logger.log s l m = s ∧
  length (buffer_ (Logger.log s l m)) = length (buffer_ s) ∧
  (∀ os, Logger.log_os s l m os = Some os) ∧
  (∀ (StreamT : Type) `{!CharStream StreamT} (stream : StreamT),
      Logger.log_stream s l m stream = Some stream) ∧
  (∀ file_name mode fs, Logger.log_file s l m file_name mode fs = Some (true, fs)).
Proof.
  unfold Logger.isEnabled, map_at. intros Hoff.
  assert (Hlog : Logger.log s l m = s).
  { unfold Logger.log. rewrite (map_index_present _ _ _ _ Hoff). apply with_flags_id. }
  split; [done |]. split; [by rewrite Hlog |].
  unfold Logger.log_os, Logger.log_stream, Logger.log_file, map_at.
  rewrite Hoff. simpl. done.
Qed.

Lemma disabled_log_is_silent_witness :
  Logger.isEnabled (Logger.setEnabled Logger.ctor ERROR false) ERROR = Some false ∧
  Logger.log (Logger.setEnabled Logger.ctor ERROR false) ERROR "lost"
  = Logger.setEnabled Logger.ctor ERROR false ∧
  Logger.log_file (Logger.setEnabled Logger.ctor ERROR false) ERROR "lost"
    "err.log" ios_out ∅ = Some (true, ∅).
Proof.
  split; [reflexivity |].
  pose proof (disabled_log_is_silent (Logger.setEnabled Logger.ctor ERROR false)
                ERROR "lost" eq_refl) as (Hlog & _ & _ & _ & Hfile).
  split; [exact Hlog | apply Hfile].
Defined.

(** ** Logging to a file *)

(** C4: on a logger with the log type enabled, [log] to a file returns
    [false] exactly when the file cannot be opened, and then leaves the file
    system and the logger as they are; when the file opens, it returns
    [true] and the file holds what opening left in it followed by the one
    line header, separator, message, newline.  With the log type disabled it
    returns [true] and does not touch the file system. *)
Theorem log_file_contract (s : Logger) (l : LOG_TYPE) (m file_name : string)
    (mode : openmode) (fs : FS) :
  reachable s →
  (Logger.isEnabled s l = Some false →
     Logger.log_file s l m file_name mode fs = Some (true, fs)) ∧
  (Logger.isEnabled s l = Some true →
     (ofstream_ctor fs file_name mode = None ↔
        ∃ fs', Logger.log_file s l m file_name mode fs = Some (false, fs')) ∧
     (ofstream_ctor fs file_name mode = None →
        Logger.log_file s l m file_name mode fs = Some (false, fs)) ∧
     (∀ ofs, ofstream_ctor fs file_name mode = Some ofs →
        ∃ h, Logger.header s l = Some h ∧
             Logger.log_file s l m file_name mode fs =
               Some (true,
                     <[file_name :=
                         File (of_data ofs +:+ h +:+ Logger.separator s +:+ m
                                 +:+ Logger.newline s)]> fs))).
Proof.
  intros [Hf Hh]%reachable_well_formed.
  unfold Logger.isEnabled, Logger.header, Logger.log_file, map_at.
  split; intros Hen; rewrite Hen; simpl; [done |].
  destruct (Hh l) as [h Hl]. rewrite Hl. simpl.
  destruct (ofstream_ctor fs file_name mode) as [ofs|] eqn:Hopen.
  - split; [| split]; [split; [done | by intros [fs' ?]] | done |].
    intros ? [= <-]. exists h. split; [done |].
    unfold ofstream_close, ofstream_put. simpl.
    rewrite (ofstream_ctor_name _ _ _ _ Hopen).
    by rewrite !append_assoc.
  - split; [| split]; [split; eauto | done | done].
Qed.

Lemma log_file_contract_witness :
  reachable Logger.ctor ∧
  Logger.log_file Logger.ctor WARNING "disk" "/var/log" ios_out
    (<["/var/log" := NoAccess]> ∅)
  = Some (false, <["/var/log" := NoAccess]> ∅) ∧
  ∃ h, Logger.header Logger.ctor WARNING = Some h ∧
       Logger.log_file Logger.ctor WARNING "disk" "a.log" ios_app
         (<["a.log" := File "old;"]> ∅)
       = Some (true,
               <["a.log" := File ("old;" +:+ h +:+ " - " +:+ "disk" +:+ LF)]>
                 (<["a.log" := File "old;"]> ∅)).
Proof.
  split; [apply reach_ctor |]. split.
  - apply (log_file_contract Logger.ctor WARNING "disk" "/var/log" ios_out
             (<["/var/log" := NoAccess]> ∅) reach_ctor); reflexivity.
  - destruct (log_file_contract Logger.ctor WARNING "disk" "a.log" ios_app
                (<["a.log" := File "old;"]> ∅) reach_ctor) as [_ Hon].
    destruct (Hon eq_refl) as (_ & _ & Hopen).
    exact (Hopen {| of_name := "a.log"; of_data := "old;" |} eq_refl).
Defined.

(** ** Dumping the buffer *)

Section dump.

Lemma dump_os_eq (s : Logger) (os : ostream) :
  Logger.dump_os s os = (with_buffer s [], os +:+ render (newline_ s) (buffer_ s)).
Proof. unfold Logger.dump_os. by rewrite dump_loop_os. Qed.

Lemma dump_file_opened (s : Logger) file_name mode (fs : FS) ofs :
  ofstream_ctor fs file_name mode = Some ofs →
  Logger.dump_file s file_name mode fs =
    (true, with_buffer s [],
     <[file_name := File (of_data ofs +:+ render (newline_ s) (buffer_ s))]> fs).
Proof.
  intros Hopen. unfold Logger.dump_file. rewrite Hopen, dump_loop_file.
  unfold ofstream_close. simpl. by rewrite (ofstream_ctor_name _ _ _ _ Hopen).
Qed.

Lemma dump_file_refused (s : Logger) file_name mode (fs : FS) :
  ofstream_ctor fs file_name mode = None →
  Logger.dump_file s file_name mode fs = (false, s, fs).
Proof. intros Hopen. unfold Logger.dump_file. by rewrite Hopen. Qed.

End dump.

(** C2: [dump] to a stream writes every buffered line, each followed by the
    newline, and always leaves the buffer empty (the user-stream overload
    empties it as well); [dump] to a file that cannot be opened returns
    [false] and leaves the logger, buffer included, and the file system as
    they are, so that a later dump, to a stream or to a file that opens,
    writes all the lines that were buffered, in their order. *)
Theorem dump_clears_but_failed_file_dump_keeps (s : Logger) (file_name : string)
    (mode : openmode) (fs : FS) :
  ofstream_ctor fs file_name mode = None →
  (∀ os, Logger.dump_os s os
         = (with_buffer s [], os +:+ render (Logger.newline s) (buffer_ s))) ∧
  (∀ (StreamT : Type) `{!CharStream StreamT} (stream : StreamT),
      buffer_ (Logger.dump_stream s stream).1 = []) ∧
  Logger.dump_file s file_name mode fs = (false, s, fs) ∧
  (∀ os, (Logger.dump_os (Logger.dump_file s file_name mode fs).1.2 os).2
         = os +:+ render (Logger.newline s) (buffer_ s)) ∧
  (∀ file_name' mode' ofs,
      ofstream_ctor (Logger.dump_file s file_name mode fs).2 file_name' mode' = Some ofs →
      Logger.dump_file (Logger.dump_file s file_name mode fs).1.2 file_name' mode'
        (Logger.dump_file s file_name mode fs).2
      = (true, with_buffer s [],
         <[file_name' := File (of_data ofs +:+ render (Logger.newline s) (buffer_ s))]> fs)).
Proof.
  intros Hopen. rewrite (dump_file_refused _ _ _ _ Hopen). cbn [fst snd].
  split; [apply dump_os_eq |]. split; [done |]. split; [done |].
  split.
  - intros os. by rewrite dump_os_eq.
  - intros file_name' mode' ofs Hopen'. by apply dump_file_opened.
Qed.

Lemma dump_clears_but_failed_file_dump_keeps_witness :
  let s := run Logger.ctor [CallLog INFO "one"; CallLog FATAL "two"] in
  let fs : FS := <["/" := NoAccess]> ∅ in
  ofstream_ctor fs "/" ios_out = None ∧
  Logger.dump_file s "/" ios_out fs = (false, s, fs) ∧
  (Logger.dump_os (Logger.dump_file s "/" ios_out fs).1.2 "").2
  = "[INFO] - one" +:+ LF +:+ "[FATAL] - two" +:+ LF.
Proof.
  intros s fs.
  assert (Hopen : ofstream_ctor fs "/" ios_out = None) by reflexivity.
  split; [exact Hopen |].
  destruct (dump_clears_but_failed_file_dump_keeps s "/" ios_out fs Hopen)
    as (_ & _ & Hkeep & Hlater & _).
  split; [exact Hkeep |].
  rewrite (Hlater ""). reflexivity.
Defined.

(** ** What is fixed when a message is buffered, and what when it is dumped *)

Section buffering.

Lemma buffer_do_call (s : Logger) (c : call) :
  well_formed s → buffer_ (do_call s c) = buffer_ s ++ entry_at_call s c.
Proof.
  intros Hwf. destruct c as [l b| b | l h | sep | nl | l m]; simpl;
    try by rewrite app_nil_r.
  - destruct (setEnabled_frame s l b) as (_ & _ & _ & -> & _). by rewrite app_nil_r.
  - unfold Logger.setHeader.
    destruct (map_index "" (logs_headers_ s) l). simpl. by rewrite app_nil_r.
  - rewrite log_well_formed_eq by done.
    unfold Logger.isEnabled, Logger.header, Logger.separator, map_at.
    destruct (flags_logs_enabled_ s !! l) as [[]|], (logs_headers_ s !! l) as [h|];
      simpl; rewrite ?app_nil_r, ?append_assoc; done.
Qed.

Lemma buffer_run (s : Logger) (cs : list call) :
  well_formed s → buffer_ (run s cs) = buffer_ s ++ entries s cs.
Proof.
  revert s. induction cs as [|c cs IH]; intros s Hwf; simpl.
  - by rewrite app_nil_r.
  - rewrite IH by by apply well_formed_do_call.
    by rewrite buffer_do_call, app_assoc.
Qed.

Lemma setHeader_frame (s : Logger) l h :
  buffer_ (Logger.setHeader s l h) = buffer_ s ∧
  newline_ (Logger.setHeader s l h) = newline_ s.
Proof. unfold Logger.setHeader. by destruct (map_index "" (logs_headers_ s) l). Qed.

End buffering.

(** C3: after any sequence of configuration and buffered log calls, the
    buffer holds, after what it held before, one entry per log call of an
    enabled type, made of the header and the separator in effect at that
    call and the message, without newline; a dump follows every line with
    the newline in effect at the dump.  So a [setNewline] after buffering
    changes the newline written after every buffered line, while a
    [setHeader] or a [setSeparator] after buffering changes nothing in what
    the dump writes. *)
Theorem entries_fixed_at_log_newline_at_dump (s : Logger) (cs : list call)
    (os : ostream) :
  reachable s →
  let s' := run s cs in
  buffer_ s' = buffer_ s ++ entries s cs ∧
  (Logger.dump_os s' os).2
    = os +:+ render (Logger.newline s') (buffer_ s ++ entries s cs) ∧
  (∀ nl, (Logger.dump_os (Logger.setNewline s' nl) os).2
         = os +:+ render nl (buffer_ s ++ entries s cs)) ∧
  (∀ l h, (Logger.dump_os (Logger.setHeader s' l h) os).2 = (Logger.dump_os s' os).2) ∧
  (∀ sep, (Logger.dump_os (Logger.setSeparator s' sep) os).2 = (Logger.dump_os s' os).2).
Proof.
  intros Hwf%reachable_well_formed s'.
  pose proof (buffer_run s cs Hwf) as Hbuf. fold s' in Hbuf.
  split; [exact Hbuf |]. rewrite <- Hbuf.
  split; [by rewrite dump_os_eq |].
  split; [intros nl; by rewrite dump_os_eq |].
  split.
  - intros l h. rewrite !dump_os_eq. simpl.
    by destruct (setHeader_frame s' l h) as [-> ->].
  - intros sep. by rewrite !dump_os_eq.
Qed.

Lemma entries_fixed_at_log_newline_at_dump_witness :
  reachable Logger.ctor ∧
  let cs := [CallLog INFO "a"; CallSetHeader INFO "<i>"; CallSetSeparator ": ";
             CallLog INFO "b"; CallSetEnabled INFO false; CallLog INFO "c"] in
  buffer_ (run Logger.ctor cs) = ["[INFO] - a"; "<i>: b"] ∧
  (Logger.dump_os (Logger.setNewline (run Logger.ctor cs) ";") "").2
  = "[INFO] - a;<i>: b;".
Proof.
  split; [apply reach_ctor |]. intros cs.
  destruct (entries_fixed_at_log_newline_at_dump Logger.ctor cs "" reach_ctor)
    as (Hbuf & _ & Hnl & _).
  split; [rewrite Hbuf; reflexivity | rewrite (Hnl ";"); reflexivity].
Defined.

(** ** User streams against [std::ostream] *)

Section user_streams.

Lemma log_stream_accumulator (s : Logger) (l : LOG_TYPE) (m h : string)
    (acc : Accumulator) :
  Logger.isEnabled s l = Some true → Logger.header s l = Some h →
  Logger.log_stream s l m acc
  = Some (acc +:+ c_str h +:+ c_str (separator_ s) +:+ c_str m +:+ c_str (newline_ s)).
Proof.
  unfold Logger.isEnabled, Logger.header, Logger.log_stream, map_at.
  intros -> ->. simpl. unfold put_cstr, Accumulator_stream.
  by rewrite !append_assoc.
Qed.

Lemma log_os_written (s : Logger) (l : LOG_TYPE) (m h : string) (os : ostream) :
  Logger.isEnabled s l = Some true → Logger.header s l = Some h →
  Logger.log_os s l m os = Some (os +:+ h +:+ separator_ s +:+ m +:+ newline_ s).
Proof.
  unfold Logger.isEnabled, Logger.header, Logger.log_os, map_at.
  intros -> ->. simpl. unfold ostream_put.
  by rewrite !append_assoc.
Qed.

Lemma buffer_log_cases (s : Logger) (l : LOG_TYPE) (m h : string) :
  Logger.header s l = Some h →
  buffer_ (Logger.log s l m) = buffer_ s ∨
  buffer_ (Logger.log s l m) = buffer_ s ++ [(h +:+ separator_ s) +:+ m].
Proof.
  unfold Logger.header, map_at. intros Hh. unfold Logger.log.
  destruct (map_index false (flags_logs_enabled_ s) l) as [fl [|]]; simpl; [| by left].
  rewrite (map_index_present _ _ _ _ Hh). simpl. by right.
Qed.

End user_streams.

(** C10: with an in-memory accumulator as user stream, the templated [log]
    and [dump] write the same characters as the [std::ostream] overloads
    whenever header, separator, message, newline and the buffered lines hold
    no NUL character (and buffering a message keeps the buffered lines
    NUL-free); as the templated overloads go through [c_str()], a message
    is cut at its first NUL, and the outputs of the two overloads can then
    differ, for [log] and for [dump]. *)
Theorem user_stream_agrees_with_ostream_without_nul (s : Logger) (l : LOG_TYPE)
    (m h : string) (acc : string) :
  Logger.header s l = Some h →
  nul_free h = true →
  nul_free (Logger.separator s) = true →
  nul_free m = true →
  nul_free (Logger.newline s) = true →
  nul_free_lines (buffer_ s) = true →
  Logger.log_stream s l m (acc : Accumulator) = Logger.log_os s l m acc ∧
  Logger.dump_stream s (acc : Accumulator) = Logger.dump_os s acc ∧
  nul_free_lines (buffer_ (Logger.log s l m)) = true ∧
  (∀ post, Logger.log_stream s l (m +:+ String NUL post) (acc : Accumulator)
           = Logger.log_stream s l m (acc : Accumulator)) ∧
  (∃ s0 l0 m0,
      nul_free m0 = false ∧
      Logger.log_stream s0 l0 m0 (acc : Accumulator) ≠ Logger.log_os s0 l0 m0 acc) ∧
  (∃ s0,
      nul_free_lines (buffer_ s0) = false ∧
      (Logger.dump_stream s0 (acc : Accumulator)).2 ≠ (Logger.dump_os s0 acc).2).
Proof.
  unfold Logger.separator, Logger.newline.
  intros Hh Nh Nsep Nm Nnl Nbuf. repeat split.
  - unfold Logger.header in Hh.
    unfold Logger.log_stream, Logger.log_os. rewrite Hh.
    destruct (map_at (flags_logs_enabled_ s) l) as [[]|]; simpl; [| done | done].
    rewrite !c_str_nul_free by done. done.
  - unfold Logger.dump_stream, Logger.dump_os.
    rewrite dump_loop_accumulator, dump_loop_os.
    by rewrite nul_free_lines_c_str, c_str_nul_free.
  - destruct (buffer_log_cases s l m h Hh) as [-> | ->]; [done |].
    unfold nul_free_lines in *. rewrite forallb_app, Nbuf. simpl.
    by rewrite !nul_free_append, Nh, Nsep, Nm.
  - intros post. unfold Logger.log_stream.
    by rewrite c_str_cuts_at_nul, (c_str_nul_free m).
  - exists Logger.ctor, INFO, (String "a" (String NUL "b")). split; [done |].
    rewrite (log_stream_accumulator _ _ _ "[INFO]") by done.
    rewrite (log_os_written _ _ _ "[INFO]") by done.
    intros [= Heq]. apply (inj (String.append acc)) in Heq. discriminate Heq.
  - exists (Logger.log Logger.ctor INFO (String "a" (String NUL "b"))).
    split; [done |].
    unfold Logger.dump_stream, Logger.dump_os. cbn [fst snd].
    rewrite dump_loop_accumulator, dump_loop_os.
    intros Heq. apply (inj (String.append acc)) in Heq. discriminate Heq.
Qed.

Lemma user_stream_agrees_with_ostream_without_nul_witness :
  let s := Logger.log Logger.ctor WARNING "low disk" in
  Logger.header s ERROR = Some "[ERROR]" ∧
  nul_free_lines (buffer_ s) = true ∧
  Logger.log_stream s ERROR "boom" ("" : Accumulator) = Logger.log_os s ERROR "boom" "" ∧
  Logger.dump_stream s ("" : Accumulator) = Logger.dump_os s "".
Proof.
  intros s. split; [reflexivity |]. split; [reflexivity |].
  destruct (user_stream_agrees_with_ostream_without_nul s ERROR "boom" "[ERROR]" ""
              eq_refl eq_refl eq_refl eq_refl eq_refl eq_refl) as (Hlog & Hdump & _).
  split; [exact Hlog | exact Hdump].
Defined.

(** ** The static logger *)

Section static_logger.

(** For INFO, WARNING and ERROR the three overloads write the documented
    header of the log type. *)
Lemma static_headers_below_fatal (g : SLogger) (l : LOG_TYPE) (m : string) :
  l ≠ FATAL → SLogger.flag g l = true →
  (∀ os, SLogger.log_os g l m os
         = os << (documented_header l +:+ " - ") << m << NEWLINE g) ∧
  (∀ acc : Accumulator,
      SLogger.log_stream g l m acc
      = acc <<< (documented_header l +:+ " - ") <<< c_str m <<< c_str (NEWLINE g)) ∧
  (∀ file_name mode fs,
      SLogger.log_file g l m file_name mode fs
      = SLogger.write_file (documented_header l +:+ " - ") m (NEWLINE g) file_name mode fs).
Proof.
  destruct l; [| | | done]; simpl; intros _ ->; repeat split; intros; reflexivity.
Qed.

Lemma static_write_file_opened prefix m nl file_name mode (fs : FS) ofs :
  ofstream_ctor fs file_name mode = Some ofs →
  SLogger.write_file prefix m nl file_name mode fs
  = (true, <[file_name := File (of_data ofs +:+ prefix +:+ m +:+ nl)]> fs).
Proof.
  intros Hopen. unfold SLogger.write_file. rewrite Hopen.
  unfold ofstream_close, ofstream_put. simpl.
  by rewrite (ofstream_ctor_name _ _ _ _ Hopen), !append_assoc.
Qed.

End static_logger.

(** C1: with FATAL enabled, the [std::ostream] overload of the static
    logger's [log] writes the header "[WARNING]" for a FATAL message, not
    "[FATAL]"; the templated overload writes "[WARNING]" too, and only the
    file overload writes "[FATAL]". *)
Theorem static_fatal_header_by_overload (g : SLogger) (m : string) (os : ostream) :
  FATAL_ENABLED_FLAG g = true →
  SLogger.log_os g FATAL m os = os +:+ "[WARNING] - " +:+ m +:+ NEWLINE g ∧
  SLogger.log_os g FATAL m os ≠ os +:+ "[FATAL] - " +:+ m +:+ NEWLINE g ∧
  (∀ acc : Accumulator,
      SLogger.log_stream g FATAL m acc
      = acc +:+ "[WARNING] - " +:+ c_str m +:+ c_str (NEWLINE g)) ∧
  (∀ file_name mode fs ofs,
      ofstream_ctor fs file_name mode = Some ofs →
      SLogger.log_file g FATAL m file_name mode fs
      = (true, <[file_name := File (of_data ofs +:+ "[FATAL] - " +:+ m +:+ NEWLINE g)]> fs)).
Proof.
  intros Hon. unfold SLogger.log_os, SLogger.log_stream, SLogger.log_file.
  rewrite Hon. unfold ostream_put, put_cstr, Accumulator_stream.
  rewrite !append_assoc. repeat split.
  - intros Heq. apply (inj (String.append os)) in Heq. discriminate Heq.
  - intros acc. by rewrite !append_assoc.
  - intros file_name mode fs ofs Hopen. by apply static_write_file_opened.
Qed.

Lemma static_fatal_header_by_overload_witness :
  FATAL_ENABLED_FLAG SLogger.init = true ∧
  SLogger.log_os SLogger.init FATAL "x" "" = "[WARNING] - x" +:+ LF ∧
  SLogger.log_os SLogger.init FATAL "x" "" ≠ "[FATAL] - x" +:+ LF.
Proof.
  split; [reflexivity |].
  destruct (static_fatal_header_by_overload SLogger.init "x" "" eq_refl)
    as (Hos & Hne & _).
  split; [exact Hos | exact Hne].
Defined.

(** * Further properties of the two loggers *)

(** ** Format and flag setters *)

Section setters.

Lemma setEnabled_eq (s : Logger) l b :
  Logger.setEnabled s l b = with_flags s (<[l := b]> (flags_logs_enabled_ s)).
Proof.
  unfold Logger.setEnabled, map_index.
  destruct (flags_logs_enabled_ s !! l); [done |].
  by rewrite insert_insert_eq.
Qed.

Lemma setHeader_eq (s : Logger) l h :
  Logger.setHeader s l h = with_headers s (<[l := h]> (logs_headers_ s)).
Proof.
  unfold Logger.setHeader, map_index.
  destruct (logs_headers_ s !! l); [done |].
  by rewrite insert_insert_eq.
Qed.

Lemma fmap_const_complete (m : gmap LOG_TYPE bool) (b : bool) :
  complete m →
  (fun _ => b) <$> m
  = <[FATAL := b]> (<[ERROR := b]> (<[WARNING := b]> (<[INFO := b]> m))).
Proof.
  intros Hm. apply map_eq. intros l. rewrite lookup_fmap.
  destruct (Hm l) as [v ->]. simpl.
  destruct l; by simplify_map_eq.
Qed.

End setters.

(** X1: [header] returns what the last [setHeader] for that log type stored,
    whatever the logger held before; [setHeader] leaves the headers of the
    other log types, the flags, the separator, the newline and the buffer as
    they are. *)
Theorem setHeader_header_round_trip (s : Logger) (l : LOG_TYPE) (h : string) :
  Logger.header (Logger.setHeader s l h) l = Some h ∧
  (∀ l', l' ≠ l → Logger.header (Logger.setHeader s l h) l' = Logger.header s l') ∧
  (∀ l', Logger.isEnabled (Logger.setHeader s l h) l' = Logger.isEnabled s l') ∧
  Logger.separator (Logger.setHeader s l h) = Logger.separator s ∧
  Logger.newline (Logger.setHeader s l h) = Logger.newline s ∧
  buffer_ (Logger.setHeader s l h) = buffer_ s.
Proof.
  rewrite setHeader_eq. unfold Logger.header, map_at. simpl.
  split; [apply lookup_insert_eq |].
  split; [| done].
  intros l' Hne. by rewrite lookup_insert_ne.
Qed.

(** X2: for one log type the last [setEnabled] wins, and [setEnabled] calls
    for two different log types can be made in either order. *)
Theorem setEnabled_last_wins_and_commutes (s : Logger) (l l' : LOG_TYPE) (b b' : bool) :
  l ≠ l' →
  Logger.setEnabled (Logger.setEnabled s l b') l b = Logger.setEnabled s l b ∧
  Logger.setEnabled (Logger.setEnabled s l b) l' b'
  = Logger.setEnabled (Logger.setEnabled s l' b') l b.
Proof.
  intros Hne. rewrite !setEnabled_eq. unfold with_flags. simpl. split.
  - by rewrite insert_insert_eq.
  - f_equal. by apply insert_insert_ne.
Qed.

Lemma setEnabled_last_wins_and_commutes_witness :
  INFO ≠ FATAL ∧
  Logger.setEnabled (Logger.setEnabled Logger.ctor INFO true) INFO false
  = Logger.setEnabled Logger.ctor INFO false ∧
  Logger.setEnabled (Logger.setEnabled Logger.ctor INFO false) FATAL true
  = Logger.setEnabled (Logger.setEnabled Logger.ctor FATAL true) INFO false.
Proof.
  assert (Hne : INFO ≠ FATAL) by discriminate.
  split; [exact Hne |].
  apply (setEnabled_last_wins_and_commutes Logger.ctor INFO FATAL false true Hne).
Defined.

(** X3: on a reachable logger, [setEnabledAll(b)] is the same as calling
    [setEnabled] with [b] for each of the four log types. *)
Theorem setEnabledAll_is_four_setEnabled (s : Logger) (b : bool) :
  reachable s →
  Logger.setEnabledAll s b
  = Logger.setEnabled
      (Logger.setEnabled
         (Logger.setEnabled (Logger.setEnabled s INFO b) WARNING b) ERROR b)
      FATAL b.
Proof.
  intros [Hf _]%reachable_well_formed.
  rewrite !setEnabled_eq. unfold Logger.setEnabledAll, with_flags. simpl.
  f_equal. by apply fmap_const_complete.
Qed.

Lemma setEnabledAll_is_four_setEnabled_witness :
  reachable (Logger.setEnabled Logger.ctor WARNING false) ∧
  Logger.setEnabledAll (Logger.setEnabled Logger.ctor WARNING false) true
  = Logger.setEnabled
      (Logger.setEnabled
         (Logger.setEnabled
            (Logger.setEnabled (Logger.setEnabled Logger.ctor WARNING false) INFO true)
            WARNING true) ERROR true)
      FATAL true.
Proof.
  assert (Hr : reachable (Logger.setEnabled Logger.ctor WARNING false)).
  { apply (reach_call Logger.ctor (CallSetEnabled WARNING false)), reach_ctor. }
  split; [exact Hr |].
  apply (setEnabledAll_is_four_setEnabled _ true Hr).
Defined.

(** ** Buffered logging and dumps *)

Section buffered.

Lemma log_appends_entry (s : Logger) l m :
  well_formed s →
  Logger.log s l m = with_buffer s (buffer_ s ++ entry_at_call s (CallLog l m)).
Proof.
  intros Hwf. rewrite log_well_formed_eq by done.
  unfold entry_at_call, Logger.isEnabled, Logger.header, Logger.separator, map_at.
  destruct (flags_logs_enabled_ s !! l) as [[]|], (logs_headers_ s !! l) as [h|];
    rewrite ?app_nil_r, ?append_assoc; by destruct s.
Qed.

Lemma with_buffer_id (s : Logger) : with_buffer s (buffer_ s) = s.
Proof. by destruct s. Qed.

Lemma dump_stream_empty {StreamT : Type} `{!CharStream StreamT} (s : Logger)
    (stream : StreamT) :
  buffer_ s = [] → Logger.dump_stream s stream = (s, stream).
Proof.
  intros Hb. unfold Logger.dump_stream. rewrite Hb. simpl.
  by rewrite <- Hb, with_buffer_id.
Qed.

End buffered.

(** X4: on a reachable logger the buffered [log] changes nothing but the
    buffer: an enabled log type appends exactly one entry, a disabled one
    none, and flags, headers, separator and newline stay as they are. *)
Theorem log_only_appends_to_buffer (s : Logger) (l : LOG_TYPE) (m : string) :
  reachable s →
  Logger.log s l m = with_buffer s (buffer_ (Logger.log s l m)) ∧
  length (buffer_ (Logger.log s l m))
  = length (buffer_ s) + (if Logger.isEnabled s l is Some true then 1 else 0) ∧
  buffer_ s `prefix_of` buffer_ (Logger.log s l m).
Proof.
  intros Hwf%reachable_well_formed.
  rewrite log_appends_entry by done. simpl.
  split; [done |]. split; [| by apply prefix_app_r].
  rewrite length_app. f_equal.
  destruct Hwf as [Hf Hh]. unfold Logger.isEnabled, Logger.header, map_at.
  destruct (Hf l) as [[|] Hb], (Hh l) as [h Hl]; rewrite Hb, ?Hl; done.
Qed.

Lemma log_only_appends_to_buffer_witness :
  reachable (Logger.setEnabled Logger.ctor INFO false) ∧
  length (buffer_ (Logger.log (Logger.setEnabled Logger.ctor INFO false) ERROR "e")) = 1 ∧
  length (buffer_ (Logger.log (Logger.setEnabled Logger.ctor INFO false) INFO "i")) = 0.
Proof.
  assert (Hr : reachable (Logger.setEnabled Logger.ctor INFO false)).
  { apply (reach_call Logger.ctor (CallSetEnabled INFO false)), reach_ctor. }
  split; [exact Hr |]. split.
  - destruct (log_only_appends_to_buffer _ ERROR "e" Hr) as (_ & Hlen & _). exact Hlen.
  - destruct (log_only_appends_to_buffer _ INFO "i" Hr) as (_ & Hlen & _). exact Hlen.
Defined.

(** X5: dumping a logger whose buffer is empty writes nothing to a stream and
    leaves the logger as it is; dumped to an existing file, it empties the
    file in [out] mode and leaves the file as it is in [app] mode, and
    returns [true] in both. *)
Theorem dump_of_empty_buffer (s : Logger) (file_name old : string) (fs : FS) :
  buffer_ s = [] →
  fs !! file_name = Some (File old) →
  (∀ os, Logger.dump_os s os = (s, os)) ∧
  (∀ (StreamT : Type) `{!CharStream StreamT} (stream : StreamT),
      Logger.dump_stream s stream = (s, stream)) ∧
  Logger.dump_file s file_name ios_out fs = (true, s, <[file_name := File ""]> fs) ∧
  Logger.dump_file s file_name ios_app fs = (true, s, fs).
Proof.
  intros Hb Hfile.
  assert (Hs : with_buffer s [] = s) by by rewrite <- Hb, with_buffer_id.
  split; [| split; [| split]].
  - intros os. rewrite dump_os_eq, Hb, Hs. simpl. by rewrite append_nil_r.
  - intros. by apply dump_stream_empty.
  - rewrite (dump_file_opened s file_name ios_out fs
               {| of_name := file_name; of_data := "" |}), Hb, Hs; [done |].
    unfold ofstream_ctor. by rewrite Hfile.
  - rewrite (dump_file_opened s file_name ios_app fs
               {| of_name := file_name; of_data := old |}), Hb, Hs.
    + simpl. by rewrite append_nil_r, insert_id.
    + unfold ofstream_ctor. by rewrite Hfile.
Qed.

Lemma dump_of_empty_buffer_witness :
  let s := (Logger.dump_os (Logger.log Logger.ctor INFO "x") "").1 in
  let fs : FS := <["app.log" := File "kept?"]> ∅ in
  buffer_ s = [] ∧ fs !! "app.log" = Some (File "kept?") ∧
  Logger.dump_os s "before" = (s, "before") ∧
  Logger.dump_file s "app.log" ios_out fs = (true, s, <["app.log" := File ""]> fs) ∧
  Logger.dump_file s "app.log" ios_app fs = (true, s, fs).
Proof.
  intros s fs.
  assert (Hb : buffer_ s = []) by reflexivity.
  assert (Hf : fs !! "app.log" = Some (File "kept?")) by reflexivity.
  split; [exact Hb |]. split; [exact Hf |].
  destruct (dump_of_empty_buffer s "app.log" "kept?" fs Hb Hf) as (Hos & _ & Hout & Happ).
  split; [apply Hos |]. split; [exact Hout | exact Happ].
Defined.

(** ** The file overloads *)

Section files.

Lemma ofstream_ctor_inserted (fs : FS) file_name c mode :
  ofstream_ctor (<[file_name := File c]> fs) file_name mode
  = Some {| of_name := file_name;
            of_data := match mode with ios_out => "" | ios_app => c end |}.
Proof. unfold ofstream_ctor. by rewrite lookup_insert_eq. Qed.

Lemma ofstream_ctor_openable (fs : FS) file_name mode :
  fs !! file_name ≠ Some NoAccess →
  ofstream_ctor fs file_name mode
  = Some {| of_name := file_name;
            of_data := match mode, fs !! file_name with
                       | ios_app, Some (File c) => c
                       | _, _ => ""
                       end |}.
Proof.
  intros Hok. unfold ofstream_ctor.
  destruct (fs !! file_name) as [[c|]|]; [by destruct mode | done | by destruct mode].
Qed.

Lemma log_file_enabled (s : Logger) l m h file_name mode (fs : FS) ofs :
  Logger.isEnabled s l = Some true → Logger.header s l = Some h →
  ofstream_ctor fs file_name mode = Some ofs →
  Logger.log_file s l m file_name mode fs
  = Some (true, <[file_name := File (of_data ofs +:+ h +:+ separator_ s +:+ m
                                       +:+ newline_ s)]> fs).
Proof.
  unfold Logger.isEnabled, Logger.header, Logger.log_file. intros -> Hh Hopen.
  rewrite Hopen, Hh. simpl. unfold ofstream_close, ofstream_put. simpl.
  by rewrite (ofstream_ctor_name _ _ _ _ Hopen), !append_assoc.
Qed.

End files.

(** X6: the file overloads of both loggers change no file but the one they
    are given: every other path keeps what it named. *)
Theorem file_overloads_touch_only_their_file (s : Logger) (g : SLogger)
    (l : LOG_TYPE) (m file_name : string) (mode : openmode) (fs : FS) (p : string) :
  p ≠ file_name →
  (∀ r, Logger.log_file s l m file_name mode fs = Some r → r.2 !! p = fs !! p) ∧
  (Logger.dump_file s file_name mode fs).2 !! p = fs !! p ∧
  (SLogger.log_file g l m file_name mode fs).2 !! p = fs !! p.
Proof.
  intros Hne.
  assert (Hclose : ∀ ofs ofs', ofstream_ctor fs file_name mode = Some ofs →
            of_name ofs' = of_name ofs → ofstream_close fs ofs' !! p = fs !! p).
  { intros ofs ofs' Hopen Hname. unfold ofstream_close.
    rewrite Hname, (ofstream_ctor_name _ _ _ _ Hopen). by rewrite lookup_insert_ne. }
  split; [| split].
  - intros r. unfold Logger.log_file.
    destruct (map_at (flags_logs_enabled_ s) l) as [[|]|]; simpl; [| by intros [= <-] | done].
    destruct (ofstream_ctor fs file_name mode) as [ofs|] eqn:Hopen; [| by intros [= <-]].
    destruct (map_at (logs_headers_ s) l) as [h|]; simpl; [| done].
    intros [= <-]. simpl. by apply (Hclose ofs).
  - unfold Logger.dump_file.
    destruct (ofstream_ctor fs file_name mode) as [ofs|] eqn:Hopen; [| done].
    simpl. apply (Hclose ofs); [done |]. by rewrite dump_loop_file.
  - unfold SLogger.log_file, SLogger.write_file.
    destruct (ofstream_ctor fs file_name mode) as [ofs|] eqn:Hopen.
    + destruct l, g as [[] [] [] [] nl]; simpl; try done; by apply (Hclose ofs).
    + by destruct l, g as [[] [] [] [] nl].
Qed.

Lemma file_overloads_touch_only_their_file_witness :
  let fs : FS := <["other.log" := File "untouched"]> ∅ in
  "other.log" ≠ "a.log" ∧
  (Logger.dump_file (Logger.log Logger.ctor INFO "x") "a.log" ios_out fs).2 !! "other.log"
  = Some (File "untouched").
Proof.
  intros fs.
  assert (Hne : "other.log" ≠ "a.log") by discriminate.
  split; [exact Hne |].
  destruct (file_overloads_touch_only_their_file (Logger.log Logger.ctor INFO "x")
              SLogger.init INFO "" "a.log" ios_out fs "other.log" Hne) as (_ & Hdump & _).
  rewrite Hdump. reflexivity.
Defined.

(** X7: two [log] calls to the same file, for enabled log types.  In [out]
    mode, the default, the file ends up with the second line only, whatever
    it held and whatever the first call was; in [app] mode it ends up with
    its old content followed by both lines in call order. *)
Theorem log_file_twice (s : Logger) (l1 l2 : LOG_TYPE) (m1 m2 h1 h2 file_name : string)
    (mode1 : openmode) (fs : FS) :
  Logger.isEnabled s l1 = Some true → Logger.isEnabled s l2 = Some true →
  Logger.header s l1 = Some h1 → Logger.header s l2 = Some h2 →
  fs !! file_name ≠ Some NoAccess →
  let line1 := h1 +:+ Logger.separator s +:+ m1 +:+ Logger.newline s in
  let line2 := h2 +:+ Logger.separator s +:+ m2 +:+ Logger.newline s in
  let old := match fs !! file_name with Some (File c) => c | _ => "" end in
  (Logger.log_file s l1 m1 file_name mode1 fs
     ≫= fun r => Logger.log_file s l2 m2 file_name ios_out r.2)
  = Some (true, <[file_name := File line2]> fs) ∧
  (Logger.log_file s l1 m1 file_name ios_app fs
     ≫= fun r => Logger.log_file s l2 m2 file_name ios_app r.2)
  = Some (true, <[file_name := File (old +:+ line1 +:+ line2)]> fs).
Proof.
  intros He1 He2 Hh1 Hh2 Hok line1 line2 old.
  rewrite !(log_file_enabled s l1 m1 h1 _ _ _ _ He1 Hh1 (ofstream_ctor_openable _ _ _ Hok)).
  simpl.
  rewrite !(log_file_enabled s l2 m2 h2 _ _ _ _ He2 Hh2 (ofstream_ctor_inserted _ _ _ _)).
  simpl. rewrite !insert_insert_eq. split; [done |].
  subst line1 line2 old. unfold Logger.separator, Logger.newline.
  by rewrite !append_assoc.
Qed.

Lemma log_file_twice_witness :
  let fs : FS := <["a.log" := File "old;"]> ∅ in
  Logger.isEnabled Logger.ctor INFO = Some true ∧
  fs !! "a.log" ≠ Some NoAccess ∧
  (Logger.log_file Logger.ctor INFO "one" "a.log" ios_out fs
     ≫= fun r => Logger.log_file Logger.ctor ERROR "two" "a.log" ios_out r.2)
  = Some (true, <["a.log" := File ("[ERROR] - two" +:+ LF)]> fs) ∧
  (Logger.log_file Logger.ctor INFO "one" "a.log" ios_app fs
     ≫= fun r => Logger.log_file Logger.ctor ERROR "two" "a.log" ios_app r.2)
  = Some (true, <["a.log" := File ("old;[INFO] - one" +:+ LF +:+ "[ERROR] - two" +:+ LF)]> fs).
Proof.
  intros fs.
  assert (Hok : fs !! "a.log" ≠ Some NoAccess) by discriminate.
  split; [reflexivity |]. split; [exact Hok |].
  destruct (log_file_twice Logger.ctor INFO ERROR "one" "two" "[INFO]" "[ERROR]" "a.log"
              ios_out fs eq_refl eq_refl eq_refl eq_refl Hok) as [Hout Happ].
  split; [exact Hout | exact Happ].
Defined.

(** X8: a file overload of [Logger] that opens its file leaves in it exactly
    what the [std::ostream] overload writes to a stream that starts with the
    content the file has once opened; this holds for [dump], and for [log]
    when the log type is enabled. *)
Theorem file_overloads_write_what_ostream_overloads_write (s : Logger) (l : LOG_TYPE)
    (m file_name : string) (mode : openmode) (fs : FS) (ofs : ofstream) :
  ofstream_ctor fs file_name mode = Some ofs →
  Logger.dump_file s file_name mode fs
  = (true, (Logger.dump_os s (of_data ofs)).1,
     <[file_name := File (Logger.dump_os s (of_data ofs)).2]> fs) ∧
  (Logger.isEnabled s l = Some true →
   Logger.log_file s l m file_name mode fs
   = os' ← Logger.log_os s l m (of_data ofs);
     Some (true, <[file_name := File os']> fs)).
Proof.
  intros Hopen. split.
  - rewrite (dump_file_opened _ _ _ _ _ Hopen), dump_os_eq. done.
  - unfold Logger.isEnabled, Logger.log_file, Logger.log_os. intros ->.
    rewrite Hopen. simpl.
    destruct (map_at (logs_headers_ s) l) as [h|]; simpl; [| done].
    unfold ofstream_close, ofstream_put, ostream_put. simpl.
    by rewrite (ofstream_ctor_name _ _ _ _ Hopen).
Qed.

Lemma file_overloads_write_what_ostream_overloads_write_witness :
  let s := Logger.log Logger.ctor WARNING "w" in
  let fs : FS := <["a.log" := File "old;"]> ∅ in
  ofstream_ctor fs "a.log" ios_app = Some {| of_name := "a.log"; of_data := "old;" |} ∧
  Logger.dump_file s "a.log" ios_app fs
  = (true, (Logger.dump_os s "old;").1, <["a.log" := File (Logger.dump_os s "old;").2]> fs).
Proof.
  intros s fs.
  assert (Hopen : ofstream_ctor fs "a.log" ios_app
                  = Some {| of_name := "a.log"; of_data := "old;" |}) by reflexivity.
  split; [exact Hopen |].
  destruct (file_overloads_write_what_ostream_overloads_write s INFO "" "a.log" ios_app fs
              _ Hopen) as [Hdump _].
  exact Hdump.
Defined.

(** ** Sequences of calls *)

Section sequences.

Lemma same_config_with_buffer (s : Logger) b : same_config s (with_buffer s b).
Proof. by repeat split. Qed.

Lemma same_config_well_formed (s s' : Logger) :
  same_config s s' → well_formed s → well_formed s'.
Proof. intros (Hf & Hh & _) [? ?]. split; by rewrite <- ?Hf, <- ?Hh. Qed.

Lemma same_config_entry (s s' : Logger) (c : call) :
  same_config s s' → entry_at_call s c = entry_at_call s' c.
Proof.
  intros (Hf & Hh & Hsep & _). destruct c; simpl; try done.
  unfold Logger.isEnabled, Logger.header, Logger.separator.
  by rewrite Hf, Hh, Hsep.
Qed.

Lemma same_config_do_call (s s' : Logger) (c : call) :
  well_formed s → same_config s s' → same_config (do_call s c) (do_call s' c).
Proof.
  intros Hwf Hsame. pose proof (same_config_well_formed _ _ Hsame Hwf) as Hwf'.
  destruct Hsame as (Hf & Hh & Hsep & Hnl).
  destruct c as [l b| b | l h | sep | nl | l m]; simpl.
  - rewrite !setEnabled_eq. repeat split; simpl; congruence.
  - repeat split; simpl; congruence.
  - rewrite !setHeader_eq. repeat split; simpl; congruence.
  - repeat split; simpl; congruence.
  - repeat split; simpl; congruence.
  - rewrite !log_appends_entry by done. by repeat split.
Qed.

Lemma entries_same_config (s s' : Logger) (cs : list call) :
  well_formed s → same_config s s' → entries s cs = entries s' cs.
Proof.
  revert s s'. induction cs as [|c cs IH]; intros s s' Hwf Hsame; simpl; [done |].
  rewrite (same_config_entry _ _ c Hsame). f_equal.
  apply IH; [by apply well_formed_do_call | by apply same_config_do_call].
Qed.

Lemma newline_do_call (s : Logger) (c : call) :
  well_formed s → sets_newline c = false → newline_ (do_call s c) = newline_ s.
Proof.
  intros Hwf. destruct c as [l b| b | l h | sep | nl | l m]; simpl; try done; intros _.
  - by rewrite setEnabled_eq.
  - by rewrite setHeader_eq.
  - by rewrite log_appends_entry.
Qed.

Lemma newline_run (s : Logger) (cs : list call) :
  well_formed s → forallb (fun c => negb (sets_newline c)) cs = true →
  newline_ (run s cs) = newline_ s.
Proof.
  revert s. induction cs as [|c cs IH]; intros s Hwf Hcs; simpl; [done |].
  simpl in Hcs. apply andb_true_iff in Hcs as [Hc Hcs].
  rewrite IH by (by try apply well_formed_do_call).
  apply newline_do_call; [done | by destruct (sets_newline c)].
Qed.

Lemma log_calls_keep_newline (msgs : list (LOG_TYPE * string)) :
  forallb (fun c => negb (sets_newline c)) (log_calls msgs) = true.
Proof. induction msgs as [|p msgs IH]; [done |]. exact IH. Qed.

Lemma entries_log_calls (s : Logger) (msgs : list (LOG_TYPE * string)) :
  well_formed s → entries s (log_calls msgs) = lines_of s msgs.
Proof.
  intros Hwf. induction msgs as [|[l m] msgs IH]; [done |].
  change (entry_at_call s (CallLog l m) ++ entries (Logger.log s l m) (log_calls msgs)
          = entry_at_call s (CallLog l m) ++ lines_of s msgs).
  rewrite <- (entries_same_config s (Logger.log s l m)), IH; [done | done |].
  rewrite log_appends_entry by done. apply same_config_with_buffer.
Qed.

Lemma log_each_os_written (s : Logger) (msgs : list (LOG_TYPE * string)) (os : ostream) :
  well_formed s →
  log_each_os s msgs os = Some (os +:+ render (newline_ s) (lines_of s msgs)).
Proof.
  intros Hwf. revert os. induction msgs as [|[l m] msgs IH]; intros os.
  - simpl. by rewrite append_nil_r.
  - destruct Hwf as [Hf Hh]. destruct (Hf l) as [b Hb], (Hh l) as [h Hl].
    change (lines_of s ((l, m) :: msgs))
      with (entry_at_call s (CallLog l m) ++ lines_of s msgs).
    rewrite render_app. simpl.
    unfold Logger.log_os, Logger.isEnabled, Logger.header, Logger.separator, map_at.
    rewrite Hb, Hl. destruct b; simpl; rewrite IH; [| done].
    unfold ostream_put. by rewrite !append_assoc.
Qed.

Lemma do_call_with_reserved (s : Logger) (c : call) (n : nat) :
  do_call (with_reserved s n) c = with_reserved (do_call s c) n.
Proof.
  destruct c as [l b| b | l h | sep | nl | l m]; simpl; try done.
  - by rewrite !setEnabled_eq.
  - by rewrite !setHeader_eq.
  - unfold Logger.log. simpl.
    destruct (map_index false (flags_logs_enabled_ s) l) as [fl [|]]; simpl; [| done].
    by destruct (map_index "" (logs_headers_ s) l).
Qed.

Lemma run_with_reserved (s : Logger) (cs : list call) (n : nat) :
  run (with_reserved s n) cs = with_reserved (run s cs) n.
Proof.
  revert s. induction cs as [|c cs IH]; intros s; simpl; [done |].
  by rewrite do_call_with_reserved, IH.
Qed.

Lemma lines_of_all (s : Logger) (b : bool) (msgs : list (LOG_TYPE * string)) :
  (∀ l, Logger.isEnabled s l = Some b) → complete (logs_headers_ s) →
  length (lines_of s msgs) = if b then length msgs else 0.
Proof.
  intros Hen Hh. induction msgs as [|[l m] msgs IH]; [by destruct b |].
  change (lines_of s ((l, m) :: msgs))
    with (entry_at_call s (CallLog l m) ++ lines_of s msgs).
  rewrite length_app, IH. simpl. rewrite Hen.
  unfold Logger.header, map_at. destruct (Hh l) as [h ->]. by destruct b.
Qed.

End sequences.

(** X9: on a reachable logger, buffering messages and then dumping to a
    stream writes what dumping first and then logging the same messages
    directly to the stream writes; with an empty buffer, buffering then
    dumping is the same as logging directly. *)
Theorem buffer_then_dump_is_direct_logging (s : Logger)
    (msgs : list (LOG_TYPE * string)) (os : ostream) :
  reachable s →
  Some (Logger.dump_os (run s (log_calls msgs)) os).2
  = log_each_os s msgs (Logger.dump_os s os).2 ∧
  (buffer_ s = [] →
   Some (Logger.dump_os (run s (log_calls msgs)) os).2 = log_each_os s msgs os).
Proof.
  intros Hwf%reachable_well_formed.
  assert (Hgen : Some (Logger.dump_os (run s (log_calls msgs)) os).2
                 = log_each_os s msgs (Logger.dump_os s os).2).
  { rewrite !dump_os_eq, log_each_os_written by done. cbn [snd].
    rewrite buffer_run, entries_log_calls by done.
    rewrite newline_run by (done || apply log_calls_keep_newline).
    by rewrite render_app, append_assoc. }
  split; [exact Hgen |].
  intros Hb. rewrite Hgen, dump_os_eq, Hb. simpl. by rewrite append_nil_r.
Qed.

Lemma buffer_then_dump_is_direct_logging_witness :
  reachable Logger.ctor ∧
  Some (Logger.dump_os (run Logger.ctor (log_calls [(INFO, "a"); (FATAL, "b")])) "").2
  = log_each_os Logger.ctor [(INFO, "a"); (FATAL, "b")] "".
Proof.
  split; [apply reach_ctor |].
  destruct (buffer_then_dump_is_direct_logging Logger.ctor [(INFO, "a"); (FATAL, "b")] ""
              reach_ctor) as [_ Hdirect].
  exact (Hdirect eq_refl).
Defined.

(** X10: a dump in the middle of a sequence of calls does not change what
    reaches the stream in the end, as long as the calls after it do not set
    the newline: dumping after the first calls and again after the others
    writes what one dump at the end writes. *)
Theorem intermediate_dump_keeps_total_output (s : Logger) (cs1 cs2 : list call)
    (os : ostream) :
  reachable s →
  forallb (fun c => negb (sets_newline c)) cs2 = true →
  let d := Logger.dump_os (run s cs1) os in
  (Logger.dump_os (run d.1 cs2) d.2).2 = (Logger.dump_os (run s (cs1 ++ cs2)) os).2.
Proof.
  intros Hwf%reachable_well_formed Hcs2 d. subst d.
  assert (Hwf1 : well_formed (run s cs1)).
  { clear Hcs2. revert s Hwf. induction cs1 as [|c cs1 IH]; intros s Hwf; simpl; [done |].
    apply IH. by apply well_formed_do_call. }
  unfold run at 4. rewrite foldl_app. fold (run s cs1). fold (run (run s cs1) cs2).
  set (s1 := run s cs1) in *.
  rewrite !dump_os_eq. cbn [fst snd].
  assert (Hwf0 : well_formed (with_buffer s1 [])) by done.
  rewrite !buffer_run by done.
  rewrite !newline_run by done. simpl.
  rewrite <- (entries_same_config s1 (with_buffer s1 [])) by (done || by repeat split).
  by rewrite render_app, append_assoc.
Qed.

Lemma intermediate_dump_keeps_total_output_witness :
  let cs1 := [CallLog INFO "a"; CallSetNewline ";"] in
  let cs2 := [CallSetHeader INFO "<i>"; CallLog INFO "b"] in
  reachable Logger.ctor ∧
  forallb (fun c => negb (sets_newline c)) cs2 = true ∧
  (Logger.dump_os (run (Logger.dump_os (run Logger.ctor cs1) "").1 cs2)
     (Logger.dump_os (run Logger.ctor cs1) "").2).2
  = "[INFO] - a;<i> - b;".
Proof.
  intros cs1 cs2. split; [apply reach_ctor |]. split; [reflexivity |].
  rewrite (intermediate_dump_keeps_total_output Logger.ctor cs1 cs2 "" reach_ctor eq_refl).
  reflexivity.
Defined.

(** X11: the capacity given to the constructor is never observable: after
    the same calls, a logger built with a capacity and one built without
    differ in the reserved capacity only, and dump the same characters. *)
Theorem capacity_hint_is_not_observable (n : nat) (cs : list call) (os : ostream) :
  run (Logger.ctor_capacity n) cs = with_reserved (run Logger.ctor cs) n ∧
  buffer_ (run (Logger.ctor_capacity n) cs) = buffer_ (run Logger.ctor cs) ∧
  (Logger.dump_os (run (Logger.ctor_capacity n) cs) os).2
  = (Logger.dump_os (run Logger.ctor cs) os).2.
Proof.
  assert (Hrun : run (Logger.ctor_capacity n) cs = with_reserved (run Logger.ctor cs) n).
  { unfold Logger.ctor_capacity. simpl. apply run_with_reserved. }
  split; [exact Hrun |]. rewrite !dump_os_eq, Hrun. done.
Qed.

(** X12: on a reachable logger, after [setEnabledAll(false)] no sequence of
    buffered [log] calls adds to the buffer, and after [setEnabledAll(true)]
    every buffered [log] call adds one entry. *)
Theorem setEnabledAll_mutes_or_unmutes (s : Logger) (msgs : list (LOG_TYPE * string)) :
  reachable s →
  buffer_ (run (Logger.setEnabledAll s false) (log_calls msgs)) = buffer_ s ∧
  length (buffer_ (run (Logger.setEnabledAll s true) (log_calls msgs)))
  = length (buffer_ s) + length msgs.
Proof.
  intros Hwf%reachable_well_formed.
  assert (Hlen : ∀ b, length (entries (Logger.setEnabledAll s b) (log_calls msgs))
                      = if b then length msgs else 0).
  { intros b. rewrite entries_log_calls by by apply well_formed_setEnabledAll.
    apply lines_of_all; [| apply Hwf].
    intros l. by apply isEnabled_setEnabledAll. }
  rewrite !buffer_run by by apply well_formed_setEnabledAll.
  split.
  - pose proof (Hlen false) as Hnone. apply nil_length_inv in Hnone.
    by rewrite Hnone, app_nil_r.
  - by rewrite length_app, (Hlen true).
Qed.

Lemma setEnabledAll_mutes_or_unmutes_witness :
  let s := Logger.setEnabled (Logger.log Logger.ctor INFO "kept") ERROR false in
  let msgs := [(ERROR, "e"); (INFO, "i")] in
  reachable s ∧
  buffer_ (run (Logger.setEnabledAll s false) (log_calls msgs)) = ["[INFO] - kept"] ∧
  length (buffer_ (run (Logger.setEnabledAll s true) (log_calls msgs))) = 3.
Proof.
  intros s msgs.
  assert (Hr : reachable s).
  { apply (reach_call _ (CallSetEnabled ERROR false)),
          (reach_call _ (CallLog INFO "kept")), reach_ctor. }
  split; [exact Hr |].
  destruct (setEnabledAll_mutes_or_unmutes s msgs Hr) as [Hmute Hall].
  split; [rewrite Hmute; reflexivity | exact Hall].
Defined.

(** ** More on the static logger *)

Section static_more.



(** the prefix each overload of the static [log] writes for a log type *)
Lemma static_log_os_eq (g : SLogger) (l : LOG_TYPE) (m : string) (os : ostream) :
  SLogger.log_os g l m os
  = if SLogger.flag g l
    then os << (if decide (l = FATAL) then "[WARNING] - " else documented_header l +:+ " - ")
            << m << NEWLINE g
    else os.
Proof. by destruct l. Qed.

Lemma static_log_stream_eq {StreamT : Type} `{!CharStream StreamT} (g : SLogger)
    (l : LOG_TYPE) (m : string) (stream : StreamT) :
  SLogger.log_stream g l m stream
  = if SLogger.flag g l
    then stream <<< (if decide (l = FATAL) then "[WARNING] - "
                     else documented_header l +:+ " - ")
                <<< c_str m <<< c_str (NEWLINE g)
    else stream.
Proof. by destruct l. Qed.

Lemma static_log_file_eq (g : SLogger) (l : LOG_TYPE) (m file_name : string)
    (mode : openmode) (fs : FS) :
  SLogger.log_file g l m file_name mode fs
  = if SLogger.flag g l
    then SLogger.write_file (documented_header l +:+ " - ") m (NEWLINE g) file_name mode fs
    else (true, fs).
Proof. by destruct l. Qed.

End static_more.

(** X13: a log type whose static flag is [false] is silent on the three
    overloads of the static [log]: the stream is left as it is, and the file
    overload returns [true] without opening the file, even one that cannot
    be opened; the flags of the other log types play no part. *)
Theorem static_disabled_log_is_silent (g : SLogger) (l : LOG_TYPE) (m : string) :
  SLogger.flag g l = false →
  (∀ os, SLogger.log_os g l m os = os) ∧
  (∀ (StreamT : Type) `{!CharStream StreamT} (stream : StreamT),
      SLogger.log_stream g l m stream = stream) ∧
  (∀ file_name mode fs, SLogger.log_file g l m file_name mode fs = (true, fs)).
Proof.
  intros Hoff. split; [| split]; intros.
  - by rewrite static_log_os_eq, Hoff.
  - by rewrite static_log_stream_eq, Hoff.
  - by rewrite static_log_file_eq, Hoff.
Qed.

Lemma static_disabled_log_is_silent_witness :
  let g := {| INFO_ENABLED_FLAG := true; WARNING_ENABLED_FLAG := true;
              ERROR_ENABLED_FLAG := true; FATAL_ENABLED_FLAG := false;
              NEWLINE := LF |} in
  SLogger.flag g FATAL = false ∧
  SLogger.log_os g FATAL "x" "before" = "before" ∧
  SLogger.log_file g FATAL "x" "/" ios_out (<["/" := NoAccess]> ∅)
  = (true, <["/" := NoAccess]> ∅).
Proof.
  intros g. split; [reflexivity |].
  destruct (static_disabled_log_is_silent g FATAL "x" eq_refl) as (Hos & _ & Hfile).
  split; [apply Hos | apply Hfile].
Defined.

(** X14: with the flag of the log type set, the file overload of the static
    [log] returns [false] and leaves the file system as it is when the file
    does not open; when it opens, the overload returns [true] and the file
    holds what opening left in it, then the documented header of the log
    type ("[FATAL]" for FATAL), " - ", the message and the newline. *)
Theorem static_log_file_contract (g : SLogger) (l : LOG_TYPE) (m file_name : string)
    (mode : openmode) (fs : FS) :
  SLogger.flag g l = true →
  (ofstream_ctor fs file_name mode = None →
   SLogger.log_file g l m file_name mode fs = (false, fs)) ∧
  (∀ ofs, ofstream_ctor fs file_name mode = Some ofs →
     SLogger.log_file g l m file_name mode fs
     = (true,
        <[file_name := File (of_data ofs +:+ documented_header l +:+ " - " +:+ m
                               +:+ NEWLINE g)]> fs)).
Proof.
  intros Hon. rewrite static_log_file_eq, Hon. split.
  - intros Hopen. unfold SLogger.write_file. by rewrite Hopen.
  - intros ofs Hopen. rewrite (static_write_file_opened _ _ _ _ _ _ _ Hopen).
    by rewrite !append_assoc.
Qed.

Lemma static_log_file_contract_witness :
  SLogger.flag SLogger.init FATAL = true ∧
  SLogger.log_file SLogger.init FATAL "x" "/" ios_out (<["/" := NoAccess]> ∅)
  = (false, <["/" := NoAccess]> ∅) ∧
  SLogger.log_file SLogger.init FATAL "x" "a.log" ios_app (<["a.log" := File "old;"]> ∅)
  = (true, <["a.log" := File ("old;[FATAL] - x" +:+ LF)]> (<["a.log" := File "old;"]> ∅)).
Proof.
  split; [reflexivity |]. split.
  - apply (static_log_file_contract SLogger.init FATAL "x" "/" ios_out
             (<["/" := NoAccess]> ∅) eq_refl). reflexivity.
  - apply (proj2 (static_log_file_contract SLogger.init FATAL "x" "a.log" ios_app
                    (<["a.log" := File "old;"]> ∅) eq_refl)
             {| of_name := "a.log"; of_data := "old;" |}). reflexivity.
Defined.


(** X16: on an accumulating user stream, the templated overload of the
    static [log] writes what the [std::ostream] overload writes, for the
    four log types, whenever message and newline hold no NUL character. *)
Theorem static_user_stream_agrees_with_ostream (g : SLogger) (l : LOG_TYPE)
    (m : string) (acc : string) :
  nul_free m = true → nul_free (NEWLINE g) = true →
  SLogger.log_stream g l m (acc : Accumulator) = SLogger.log_os g l m acc.
Proof.
  intros Nm Nnl. rewrite static_log_stream_eq, static_log_os_eq.
  by rewrite !c_str_nul_free.
Qed.

Lemma static_user_stream_agrees_with_ostream_witness :
  nul_free "boom" = true ∧ nul_free (NEWLINE SLogger.init) = true ∧
  SLogger.log_stream SLogger.init FATAL "boom" ("" : Accumulator)
  = SLogger.log_os SLogger.init FATAL "boom" "".
Proof.
  split; [reflexivity |]. split; [reflexivity |].
  apply (static_user_stream_agrees_with_ostream SLogger.init FATAL "boom" ""
           eq_refl eq_refl).
Defined.

(** X17: the templated overloads never hand a NUL character to the user
    stream: an accumulator that holds none before a templated [log] or
    [dump], of either logger, holds none after, whatever the headers, the
    separator, the message, the newline and the buffered lines are. *)
Theorem user_stream_never_receives_nul (s : Logger) (g : SLogger) (l : LOG_TYPE)
    (m : string) (acc : Accumulator) :
  nul_free acc = true →
  (∀ acc', Logger.log_stream s l m acc = Some acc' → nul_free acc' = true) ∧
  nul_free (Logger.dump_stream s acc).2 = true ∧
  nul_free (SLogger.log_stream g l m acc) = true.
Proof.
  intros Nacc. split; [| split].
  - intros acc'. unfold Logger.log_stream.
    destruct (map_at (flags_logs_enabled_ s) l) as [[|]|]; simpl; [| congruence | done].
    destruct (map_at (logs_headers_ s) l) as [h|]; simpl; [| done].
    intros [= <-]. unfold put_cstr, Accumulator_stream.
    by rewrite !nul_free_append, Nacc, !c_str_is_nul_free.
  - unfold Logger.dump_stream. cbn [snd]. rewrite dump_loop_accumulator.
    rewrite nul_free_append, Nacc. simpl.
    induction (buffer_ s) as [|x lines IH]; [done |].
    rewrite fmap_cons. simpl. by rewrite !nul_free_append, !c_str_is_nul_free, IH.
  - rewrite static_log_stream_eq. destruct (SLogger.flag g l); [| done].
    unfold put_cstr, Accumulator_stream.
    rewrite !nul_free_append, Nacc, !c_str_is_nul_free.
    by destruct l.
Qed.

Lemma user_stream_never_receives_nul_witness :
  nul_free "" = true ∧
  nul_free (Logger.dump_stream
              (Logger.log Logger.ctor INFO (String "a" (String NUL "b")))
              ("" : Accumulator)).2 = true.
Proof.
  split; [reflexivity |].
  destruct (user_stream_never_receives_nul
              (Logger.log Logger.ctor INFO (String "a" (String NUL "b")))
              SLogger.init INFO "" "" eq_refl) as (_ & Hdump & _).
  exact Hdump.
Defined.
